(** * OCILIB: the REF layer (ref.c), the enqueue layer and the C++ proxy contract

    A shallow embedding of [ocilib/src/ref.c] (the OCI_Ref functions and
    the OCI_Enqueue functions that follow them in the same file) together
    with the reference-counted proxy and the exception surface declared in
    [ocilib/include/ocilib.hpp].

    The C code is stateful: it mutates structures through pointers, calls
    the vendor's native client library and records failures through the
    OCI_ExceptionXXX family.  It is embedded in a state-and-fault monad over
    a store of structures and a trace of observable events.  The native
    library is opaque; it is represented by an oracle that answers every
    native call from the history of events so far. *)

From Stdlib Require Import ZArith List Bool Lia.
From stdpp Require Import base option gmap list.
Import ListNotations.

Local Open Scope Z_scope.

(** ** Pointers and native handles *)

(** A pointer is either NULL ([None]) or the address of a cell. *)
Definition addr := positive.
Definition ptr := option addr.
Definition NULL : ptr := None.

(** ** Constants and structures *)

(** The three handle states of ocilib_defs.h, plus the content of a structure
    that OCI_MemAlloc has just zero-filled. *)
Inductive hstate_t :=
| OCI_OBJECT_UNSET
| OCI_OBJECT_ALLOCATED
| OCI_OBJECT_FETCHED_CLEAN
| OCI_OBJECT_FETCHED_DIRTY.

Definition hstate_eqb (a b : hstate_t) : bool :=
  match a, b with
  | OCI_OBJECT_UNSET, OCI_OBJECT_UNSET
  | OCI_OBJECT_ALLOCATED, OCI_OBJECT_ALLOCATED
  | OCI_OBJECT_FETCHED_CLEAN, OCI_OBJECT_FETCHED_CLEAN
  | OCI_OBJECT_FETCHED_DIRTY, OCI_OBJECT_FETCHED_DIRTY => true
  | _, _ => false
  end.

(** Kinds of pointers named by the OCI_IPC_xxx constants used in the file. *)
Inductive ipc_t :=
| OCI_IPC_VOID | OCI_IPC_STRING | OCI_IPC_CONNECTION | OCI_IPC_SCHEMA
| OCI_IPC_REF | OCI_IPC_OBJECT | OCI_IPC_TYPE_INFO | OCI_IPC_ENQUEUE
| OCI_IPC_MSG.

(** struct OCI_Object, restricted to the fields this layer touches. *)
Record OCI_Object := mkObject {
  obj_handle : ptr;
  obj_hstate : hstate_t;
  obj_tab_ind : ptr
}.

(** struct OCI_Ref. *)
Record OCI_Ref := mkRef {
  ref_obj : ptr;          (* OCI_Object *obj   *)
  ref_handle : ptr;       (* void *handle      *)
  ref_hstate : hstate_t;  (* int hstate        *)
  ref_pinned : bool;      (* boolean pinned    *)
  ref_con : ptr;          (* OCI_Connection *  *)
  ref_nty : ptr           (* OCI_Schema *nty   *)
}.

(** What OCI_MemAlloc returns when asked to zero the block. *)
Definition zero_ref : OCI_Ref :=
  mkRef NULL NULL OCI_OBJECT_UNSET false NULL NULL.

Definition set_ref_obj (o : ptr) (r : OCI_Ref) : OCI_Ref :=
  mkRef o (ref_handle r) (ref_hstate r) (ref_pinned r) (ref_con r) (ref_nty r).
Definition set_ref_handle (h : ptr) (r : OCI_Ref) : OCI_Ref :=
  mkRef (ref_obj r) h (ref_hstate r) (ref_pinned r) (ref_con r) (ref_nty r).
Definition set_ref_hstate (h : hstate_t) (r : OCI_Ref) : OCI_Ref :=
  mkRef (ref_obj r) (ref_handle r) h (ref_pinned r) (ref_con r) (ref_nty r).
Definition set_ref_pinned (b : bool) (r : OCI_Ref) : OCI_Ref :=
  mkRef (ref_obj r) (ref_handle r) (ref_hstate r) b (ref_con r) (ref_nty r).
Definition set_ref_con (c : ptr) (r : OCI_Ref) : OCI_Ref :=
  mkRef (ref_obj r) (ref_handle r) (ref_hstate r) (ref_pinned r) c (ref_nty r).
Definition set_ref_nty (n : ptr) (r : OCI_Ref) : OCI_Ref :=
  mkRef (ref_obj r) (ref_handle r) (ref_hstate r) (ref_pinned r) (ref_con r) n.

Definition set_obj_hstate (h : hstate_t) (o : OCI_Object) : OCI_Object :=
  mkObject (obj_handle o) h (obj_tab_ind o).

(** struct OCI_TypeInfo, OCI_Msg and OCI_Enqueue.  The type descriptor and the
    message are only read by this layer, so a pointer to one of them is
    modelled by the value it points to, [None] being NULL. *)
Record OCI_TypeInfo := mkTypeInfo {
  ti_con : ptr;
  ti_tdo : ptr;
  ti_typecode : Z
}.

Record OCI_Msg := mkMsg {
  msg_typinf : option OCI_TypeInfo;
  msg_ind : Z;
  msg_obj : option OCI_Object;
  msg_payload : ptr;
  msg_proph : ptr
}.

Record OCI_Enqueue := mkEnqueue {
  enq_typinf : option OCI_TypeInfo;
  enq_name : list Z;
  enq_opth : ptr
}.

(** The indicator argument handed to OCIAQEnq: nothing, the indicator table
    of the message's object, or the address of the message's own indicator,
    given by the value stored there. *)
Inductive ind_arg :=
| IndNull
| IndTab (p : ptr)
| IndOfMsg (v : Z).

(** Attributes read or written on the enqueue options descriptor. *)
Inductive attr_t :=
| OCI_ATTR_VISIBILITY | OCI_ATTR_SEQUENCE_DEVIATION | OCI_ATTR_RELATIVE_MSGID.

(** ** Native entry points and observable events *)

(** One constructor per native entry point used by the file, with the
    arguments that the code passes to it. *)
Inductive NativeCall :=
| OCIObjectNew
| OCIObjectPin (h : ptr)
| OCIObjectUnpin (h : ptr)
| OCIObjectFree (h : ptr)
| OCIRefAssign (src dst : ptr)
| OCIRefIsNull (h : ptr)
| OCIRefClear (h : ptr)
| OCIRefToHex (h : ptr) (buf : list Z) (osize : Z)
| OCIRefHexSize (h : ptr)
| OCIDescriptorAlloc
| OCIDescriptorFree (d : ptr)
| OCIAQEnq (queue : list Z) (opth proph tdo payload : ptr) (ind : ind_arg)
| OCIAttrGet (d : ptr) (a : attr_t)
| OCIAttrSetUb4 (d : ptr) (a : attr_t) (v : Z)
| OCIAttrSetRaw (d : ptr) (a : attr_t) (v : ptr)
| OCIRawAssignBytes (bytes : list Z) (len : Z)
| OCIRawSize (raw : ptr)
| OCIRawPtr (raw : ptr).

Inductive exc_t :=
| ExcOCI (con : addr)               (* OCI_ExceptionOCI          *)
| ExcNullPointer (k : ipc_t)        (* OCI_ExceptionNullPointer  *)
| ExcNotInitialized                 (* OCI_ExceptionNotInitialized *)
| ExcTypeNotCompatible (con : ptr)  (* OCI_ExceptionTypeNotCompatible *)
| ExcArgInvalidValue.               (* OCI_ExceptionArgInvalidValue *)

(** The trace lists events most recent first. *)
Inductive Event :=
| EvCall2 (c : NativeCall) (status : Z)   (* native call made through OCI_CALL2 *)
| EvDirect (c : NativeCall)               (* native call made directly *)
| EvException (e : exc_t)                 (* the translator's error state is set *)
| EvObjectFree (o : addr) (st : OCI_Object) (* OCI_ObjectFree entered on [o] holding [st] *)
| EvMemAlloc (k : ipc_t) (ok : bool)      (* OCI_MemAlloc *)
| EvMemFree (k : ipc_t) (a : addr)        (* OCI_FREE of a structure *)
| EvResult (b : bool).                    (* OCI_RESULT *)

(** The vendor library and the parts of the binding that live outside this
    file.  Every answer may depend on the whole history. *)
Record Native := mkNative {
  nat_status : list Event -> NativeCall -> Z;       (* sword return code *)
  nat_handle : list Event -> NativeCall -> ptr;     (* value left in a pointer out-parameter *)
  nat_bool : list Event -> NativeCall -> bool;      (* boolean return value *)
  nat_ub4 : list Event -> NativeCall -> Z;          (* ub4 return value or out-parameter *)
  nat_bytes : list Event -> NativeCall -> list Z;   (* bytes produced or pointed to *)
  call2_ok : Z -> bool;          (* the status test of the OCI_CALL2 macro *)
  successful : Z -> bool;        (* the OCI_SUCCESSFUL macro *)
  sizeof_mtext : positive;       (* sizeof(mtext) *)
  mem_alloc_ok : list Event -> bool;   (* does OCI_MemAlloc succeed *)
  OCI_UNKNOWN : Z;
  OCI_IND_NULL : Z;
  OCI_AMV_IMMEDIATE : Z;
  OCI_AMV_ON_COMMIT : Z;
  OCI_ASD_BEFORE : Z;
  OCI_ASD_TOP : Z;
  object_init : list Event -> ptr -> option OCI_Object;  (* outcome of OCI_ObjectInit *)
  object_init_left : list Event -> ptr -> ptr   (* [*pobj] after a failed OCI_ObjectInit *)
}.

(** ** Program state *)

Record State := mkState {
  loaded : bool;                       (* OCILib.loaded *)
  refs : gmap positive OCI_Ref;        (* live OCI_Ref structures *)
  objs : gmap positive OCI_Object;     (* live OCI_Object structures *)
  enqs : gmap positive OCI_Enqueue;    (* live OCI_Enqueue structures *)
  trace : list Event
}.

(** ** The state-and-fault monad

    [None] is a fault: the C code dereferenced NULL or a dangling pointer, or
    wrote outside a buffer. *)
Definition M (A : Type) : Type := State -> option (A * State).

Definition ret {A} (a : A) : M A := fun s => Some (a, s).
Definition bind {A B} (m : M A) (k : A -> M B) : M B :=
  fun s => match m s with
           | Some (a, s') => k a s'
           | None => None
           end.
Definition fault {A} : M A := fun _ => None.

Notation "'do' x <- m ; k" := (bind m (fun x => k))
  (at level 10, x name, m at level 100, k at level 200).
Notation "'run' m ; k" := (bind m (fun _ => k))
  (at level 10, m at level 100, k at level 200).

Definition get_trace : M (list Event) := fun s => Some (trace s, s).
Definition get_loaded : M bool := fun s => Some (loaded s, s).

Definition emit (e : Event) : M unit :=
  fun s => Some (tt, mkState (loaded s) (refs s) (objs s) (enqs s) (e :: trace s)).

Definition load_ref (p : addr) : M OCI_Ref :=
  fun s => match refs s !! p with
           | Some r => Some (r, s)
           | None => None
           end.

Definition store_ref (p : addr) (r : OCI_Ref) : M unit :=
  fun s => match refs s !! p with
           | Some _ => Some (tt, mkState (loaded s) (<[p:=r]> (refs s)) (objs s) (enqs s) (trace s))
           | None => None
           end.

Definition update_ref (p : addr) (f : OCI_Ref -> OCI_Ref) : M unit :=
  do r <- load_ref p; store_ref p (f r).

Definition load_obj (p : addr) : M OCI_Object :=
  fun s => match objs s !! p with
           | Some o => Some (o, s)
           | None => None
           end.

Definition store_obj (p : addr) (o : OCI_Object) : M unit :=
  fun s => match objs s !! p with
           | Some _ => Some (tt, mkState (loaded s) (refs s) (<[p:=o]> (objs s)) (enqs s) (trace s))
           | None => None
           end.

Definition store_enq (p : addr) (e : OCI_Enqueue) : M unit :=
  fun s => match enqs s !! p with
           | Some _ => Some (tt, mkState (loaded s) (refs s) (objs s) (<[p:=e]> (enqs s)) (trace s))
           | None => None
           end.

Definition load_enq (p : addr) : M OCI_Enqueue :=
  fun s => match enqs s !! p with
           | Some e => Some (e, s)
           | None => None
           end.

(** Dereferencing a pointer faults on NULL. *)
Definition deref {A} (p : option A) : M A :=
  match p with
  | Some a => ret a
  | None => fault
  end.

(** OCI_FREE on a structure: the block is returned to the allocator. *)
Definition free_ref (p : addr) : M unit :=
  fun s => match refs s !! p with
           | Some _ => Some (tt, mkState (loaded s) (delete p (refs s)) (objs s) (enqs s)
                                   (EvMemFree OCI_IPC_REF p :: trace s))
           | None => None
           end.

Definition free_obj (p : addr) : M unit :=
  fun s => match objs s !! p with
           | Some _ => Some (tt, mkState (loaded s) (refs s) (delete p (objs s)) (enqs s)
                                   (EvMemFree OCI_IPC_OBJECT p :: trace s))
           | None => None
           end.

Definition free_enq (p : addr) : M unit :=
  fun s => match enqs s !! p with
           | Some _ => Some (tt, mkState (loaded s) (refs s) (objs s) (delete p (enqs s))
                                   (EvMemFree OCI_IPC_ENQUEUE p :: trace s))
           | None => None
           end.

(** OCI_MemAlloc of a zero-filled structure.  The address is one that is not
    in use; the allocator may also fail and return NULL. *)
Definition alloc_ref : M addr :=
  fun s => let p := fresh (dom (refs s)) in
           Some (p, mkState (loaded s) (<[p:=zero_ref]> (refs s)) (objs s) (enqs s) (trace s)).

Definition alloc_obj (o : OCI_Object) : M addr :=
  fun s => let p := fresh (dom (objs s)) in
           Some (p, mkState (loaded s) (refs s) (<[p:=o]> (objs s)) (enqs s) (trace s)).

Definition alloc_enq (e : OCI_Enqueue) : M addr :=
  fun s => let p := fresh (dom (enqs s)) in
           Some (p, mkState (loaded s) (refs s) (objs s) (<[p:=e]> (enqs s)) (trace s)).

Definition ptr_eqb (a b : ptr) : bool :=
  match a, b with
  | None, None => true
  | Some x, Some y => Pos.eqb x y
  | _, _ => false
  end.

(** ** The macros of ocilib_checks.h and the helpers of other files

    ref.c includes ocilib_internal.h, which is not part of the sources at
    hand.  The macros it uses are written out here. *)

Section Binding.

Variable N : Native.

(** Modelled from the spec: the OCI_CALL2 macro of ocilib_checks.h is not
    among the sources.  Section 4.2: the translator wraps a native
    entry-point invocation; after the call returns it inspects the status and, when a failure is
    reported, raises the structured error for the call's connection; this
    boolean is the only thing the caller sees.  A call is attempted only
    while the running result is still TRUE.  The arguments of every wrapped
    call read [con->err], so the connection is dereferenced first. *)
Definition OCI_CALL2 (res : bool) (con : ptr) (c : NativeCall) : M bool :=
  if res then
    do cn <- deref con;
    do tr <- get_trace;
    let st := nat_status N tr c in
    run emit (EvCall2 c st);
    if call2_ok N st then ret true
    else run emit (EvException (ExcOCI cn)); ret false
  else ret false.

(** Modelled from the spec: OCI_RESULT of ocilib_checks.h is not among the
    sources; it records the outcome of a public call in the translator's state. *)
Definition OCI_RESULT (b : bool) : M unit := emit (EvResult b).

(** Modelled from the spec: OCI_ExceptionNullPointer, raised by the
    OCI_CHECK_PTR macro (section 4.1: defensive null-pointer check). *)
Definition null_pointer (k : ipc_t) : M unit := emit (EvException (ExcNullPointer k)).

(** A native call that the source makes without the translator macro. *)
Definition direct (c : NativeCall) : M (list Event) :=
  do tr <- get_trace;
  run emit (EvDirect c);
  ret tr.

(** Modelled from the spec: OCI_CHECK_OBJECT_FETCHED of ocilib_checks.h is
    not among the sources.  Section 4.4: a Fetched resource shares the lifetime of its
    parent and is not freed by the application-visible call; the macro makes
    the function return when the structure is in the fetched-clean state. *)
Definition OCI_CHECK_OBJECT_FETCHED (h : hstate_t) : bool :=
  hstate_eqb h OCI_OBJECT_FETCHED_CLEAN.

(** Modelled from the spec: OCI_ObjectFree is defined in object.c, which is
    not among the sources.  Section 4.4: an Allocated resource releases its own native
    handle; a Fetched resource must not independently free the native handle:
    a Fetched-Clean one is left to its parent, a Fetched-Dirty one gives up
    its structure only. *)
Definition OCI_ObjectFree (obj : ptr) : M bool :=
  match obj with
  | None => run null_pointer OCI_IPC_OBJECT; ret false
  | Some l =>
      do o <- load_obj l;
      run emit (EvObjectFree l o);
      if OCI_CHECK_OBJECT_FETCHED (obj_hstate o) then ret false
      else
        run (if hstate_eqb (obj_hstate o) OCI_OBJECT_ALLOCATED
             then run direct (OCIObjectFree (obj_handle o)); ret tt
             else ret tt);
        run free_obj l;
        run OCI_RESULT true;
        ret true
  end.

(** OCI_ObjectInit is defined in object.c, which is not among the sources;
    its outcome is a parameter.  When it succeeds ([object_init] gives the
    structure it builds) it fills the structure behind [&ref->obj],
    allocating it when that pointer is NULL, and returns it: OCI_RefPin and
    OCI_RefGetObject rely on that.  When it fails it returns NULL; what it
    then leaves in [ref->obj] is not determined by ref.c (OCI_RefInit, its
    counterpart for references, leaves the caller's pointer set after a
    failure) and is a parameter too ([object_init_left]): it may be NULL or
    any pointer, live or not.  The events inside the call (its allocations,
    an error it may raise) belong to object.c and are not in the trace. *)
Definition OCI_ObjectInit (p : addr) (obj_handle : ptr) : M ptr :=
  do tr <- get_trace;
  match object_init N tr obj_handle with
  | None =>
      run update_ref p (set_ref_obj (object_init_left N tr obj_handle));
      ret NULL
  | Some o =>
      do r <- load_ref p;
      match ref_obj r with
      | Some l => run store_obj l o; ret (Some l)
      | None =>
          do l <- alloc_obj o;
          run update_ref p (set_ref_obj (Some l));
          ret (Some l)
      end
  end.

(** ** ref.c, private functions *)

(** OCI_RefUnpin (ref.c, lines 147-173). *)
Definition OCI_RefUnpin (ref : ptr) : M bool :=
  match ref with
  | None => ret false                              (* OCI_CHECK(ref == NULL, FALSE) *)
  | Some p =>
      do r <- load_ref p;
      do res <-
        (if ref_pinned r then
           do l <- deref (ref_obj r);               (* ref->obj->handle *)
           do o <- load_obj l;
           do res <- OCI_CALL2 true (ref_con r) (OCIObjectUnpin (obj_handle o));
           run update_ref p (set_ref_pinned false);
           ret res
         else ret true);
      do r <- load_ref p;
      run (match ref_obj r with
           | Some l =>
               do o <- load_obj l;
               run store_obj l (set_obj_hstate OCI_OBJECT_FETCHED_DIRTY o);
               run OCI_ObjectFree (Some l);
               update_ref p (set_ref_obj NULL)
           | None => ret tt
           end);
      ret res
  end.

(** OCI_RefFree (ref.c, lines 203-222).  OCI_CHECK_PTR raises the
    null-pointer error and returns. *)
Definition OCI_RefFree (ref : ptr) : M bool :=
  match ref with
  | None => run null_pointer OCI_IPC_REF; ret false
  | Some p =>
      do r <- load_ref p;
      if OCI_CHECK_OBJECT_FETCHED (ref_hstate r) then ret false
      else
        run OCI_RefUnpin ref;
        do r <- load_ref p;
        run (if hstate_eqb (ref_hstate r) OCI_OBJECT_ALLOCATED
             then
               run deref (ref_con r);               (* ref->con->err *)
               run direct (OCIObjectFree (ref_handle r));
               ret tt
             else ret tt);
        run free_ref p;
        run OCI_RESULT true;
        ret true
  end.

(** OCI_MemAlloc(OCI_IPC_REF, sizeof( *ref), 1, TRUE). *)
Definition OCI_MemAlloc_ref : M ptr :=
  do tr <- get_trace;
  if mem_alloc_ok N tr then
    do p <- alloc_ref;
    run emit (EvMemAlloc OCI_IPC_REF true);
    ret (Some p)
  else
    run emit (EvMemAlloc OCI_IPC_REF false);
    ret NULL.

(** OCI_RefInit (ref.c, lines 45-100).  [pref] is NULL ([None]) or points to
    a pointer variable holding [Some cur]; the result pairs the returned
    pointer with the final content of that variable. *)
Definition OCI_RefInit (con schema : ptr) (pref : option ptr) (handle : ptr)
  : M (ptr * ptr) :=
  match pref with
  | None => ret (NULL, NULL)                       (* OCI_CHECK(pref == NULL, NULL) *)
  | Some cur =>
      do cur <- (match cur with
                 | None => OCI_MemAlloc_ref
                 | Some _ => ret cur
                 end);
      do rr <-
        (match cur with
         | Some p =>
             run update_ref p (set_ref_handle handle);
             run update_ref p (set_ref_con con);
             run update_ref p (set_ref_nty schema);
             do r <- load_ref p;
             match ref_handle r with
             | None =>
                 run update_ref p (set_ref_hstate OCI_OBJECT_ALLOCATED);
                 do tr <- get_trace;
                 do res <- OCI_CALL2 true (ref_con r) OCIObjectNew;
                 run update_ref p (set_ref_handle (nat_handle N tr OCIObjectNew));
                 ret (res, cur)
             | Some _ =>
                 run update_ref p (set_ref_hstate OCI_OBJECT_FETCHED_CLEAN);
                 run OCI_RefUnpin cur;
                 ret (true, cur)
             end
         | None => ret (true, NULL)
         end);
      if fst rr then ret (snd rr, cur)
      else run OCI_RefFree (snd rr); ret (NULL, cur)
  end.

(** OCI_RefPin (ref.c, lines 106-141). *)
Definition OCI_RefPin (ref : ptr) : M bool :=
  match ref with
  | None => ret false                              (* OCI_CHECK(ref == NULL, FALSE) *)
  | Some p =>
      run OCI_RefUnpin ref;
      do r <- load_ref p;
      do tr <- get_trace;
      do res <- OCI_CALL2 true (ref_con r) (OCIObjectPin (ref_handle r));
      let obj_handle := nat_handle N tr (OCIObjectPin (ref_handle r)) in
      if res then
        do obj <- OCI_ObjectInit p obj_handle;
        match obj with
        | Some _ => run update_ref p (set_ref_pinned true); ret true
        | None => ret false
        end
      else ret false
  end.

(** ** ref.c, public functions *)

(** Modelled from the spec: OCI_CHECK_INITIALIZED of ocilib_checks.h is not
    among the sources.  Section 6: a single process-wide initialize call must precede
    all other operations; the macro tests the flag set by that call, raises
    the not-initialized error and returns when it is unset. *)
Definition OCI_CHECK_INITIALIZED : M bool :=
  do l <- get_loaded;
  if l then ret true
  else run emit (EvException ExcNotInitialized); ret false.

(** OCI_RefCreate (ref.c, lines 183-197). *)
Definition OCI_RefCreate (con schema : ptr) : M ptr :=
  do ini <- OCI_CHECK_INITIALIZED;
  if ini then
    match con with
    | None => run null_pointer OCI_IPC_CONNECTION; ret NULL
    | Some _ =>
        match schema with
        | None => run null_pointer OCI_IPC_SCHEMA; ret NULL
        | Some _ =>
            do rr <- OCI_RefInit con schema (Some NULL) NULL;
            run OCI_RESULT (negb (ptr_eqb (fst rr) NULL));
            ret (fst rr)
        end
    end
  else ret NULL.

(** OCI_RefIsNull (ref.c, lines 289-296). *)
Definition OCI_RefIsNull (ref : ptr) : M bool :=
  match ref with
  | None => run null_pointer OCI_IPC_REF; ret true
  | Some p =>
      run OCI_RESULT true;
      do r <- load_ref p;
      do tr <- direct (OCIRefIsNull (ref_handle r));
      ret (nat_bool N tr (OCIRefIsNull (ref_handle r)))
  end.

(** OCI_RefGetObject (ref.c, lines 228-244). *)
Definition OCI_RefGetObject (ref : ptr) : M ptr :=
  do isnull <- OCI_RefIsNull ref;
  if negb isnull then
    do res <- OCI_RefPin ref;
    run OCI_RESULT res;
    do p <- deref ref;
    do r <- load_ref p;
    ret (ref_obj r)
  else ret NULL.

(** OCI_RefAssign (ref.c, lines 250-283).  OCI_CHECK_COMPAT raises the
    type-not-compatible error and returns when its condition is false. *)
Definition OCI_RefAssign (ref ref_src : ptr) : M bool :=
  match ref with
  | None => run null_pointer OCI_IPC_REF; ret false
  | Some p =>
      match ref_src with
      | None => run null_pointer OCI_IPC_REF; ret false
      | Some q =>
          do r <- load_ref p;
          do rs <- load_ref q;
          if negb (ptr_eqb (ref_nty r) (ref_nty rs)) then
            run emit (EvException (ExcTypeNotCompatible (ref_con r)));
            ret false
          else
            do tr <- get_trace;
            let c := OCIRefAssign (ref_handle rs) (ref_handle r) in
            do res <- OCI_CALL2 true (ref_con r) c;
            run update_ref p (set_ref_handle (nat_handle N tr c));
            run (if res then
                   do r <- load_ref p;
                   run (match ref_obj r with
                        | Some l =>
                            run OCI_ObjectFree (Some l);
                            update_ref p (set_ref_obj NULL)
                        | None => ret tt
                        end);
                   do rs <- load_ref q;
                   run update_ref p (set_ref_nty (ref_nty rs));
                   do rs <- load_ref q;
                   update_ref p (set_ref_pinned (ref_pinned rs))
                 else ret tt);
            run OCI_RESULT res;
            ret res
      end
  end.

(** OCI_RefSetNull (ref.c, lines 302-324). *)
Definition OCI_RefSetNull (ref : ptr) : M bool :=
  match ref with
  | None => run null_pointer OCI_IPC_REF; ret false
  | Some p =>
      do res <- OCI_RefUnpin ref;
      run (if res then
             do r <- load_ref p;
             run direct (OCIRefClear (ref_handle r));
             match ref_obj r with
             | Some l =>
                 run OCI_ObjectFree (Some l);
                 update_ref p (set_ref_obj NULL)
             | None => ret tt
             end
           else ret tt);
      run OCI_RESULT res;
      ret res
  end.

(** C integer conversions: the value of an [int] holding [z] modulo 2^32. *)
Definition to_int (z : Z) : Z :=
  let m := z mod 2 ^ 32 in
  if m <? 2 ^ 31 then m else m - 2 ^ 32.

Definition to_ub4 (z : Z) : Z := z mod 2 ^ 32.

(** [buf[i] = v]: a write outside the block is a fault. *)
Definition write_at (buf : list Z) (i : Z) (v : Z) : M (list Z) :=
  if (0 <=? i) && (i <? Z.of_nat (length buf))
  then ret (<[Z.to_nat i := v]> buf)
  else fault.

(** A block copy of [src] to the start of [dst], as memcpy does it. *)
Definition copy_into (src dst : list Z) : M (list Z) :=
  if (length src <=? length dst)%nat
  then ret (src ++ drop (length src) dst)
  else fault.

(** OCI_RefToText (ref.c, lines 330-363).  The buffer [str] is the block of
    mtext characters the caller passed; the updated block is returned with
    the result.  OCI_GetInputMetaString, OCI_GetOutputMetaString and
    OCI_ReleaseMetaString belong to string.c, which is not among the
    sources; they are taken as they are when mtext is the native character type: the native
    call works on the caller's block and nothing is converted.  The native
    conversion leaves [nat_bytes] at the start of the block and [nat_ub4] in
    [osize]. *)
Definition OCI_RefToText (ref : ptr) (size : Z) (str : option (list Z))
  : M (bool * option (list Z)) :=
  let sz := Z.pos (sizeof_mtext N) in
  let osize := to_int (size * sz) in
  match ref with
  | None => run null_pointer OCI_IPC_REF; ret (false, str)
  | Some p =>
      match str with
      | None => run null_pointer OCI_IPC_STRING; ret (false, str)
      | Some buf =>
          do buf <- write_at buf 0 0;               (* str[0] = 0 *)
          do r <- load_ref p;
          do tr <- get_trace;
          let c := OCIRefToHex (ref_handle r) buf osize in
          do res <- OCI_CALL2 true (ref_con r) c;
          do buf <- copy_into (nat_bytes N tr c) buf;
          let osize := to_int (nat_ub4 N tr c) in
          (* str[osize/sizeof(mtext)] = 0, the division being unsigned *)
          do buf <- (if osize <? 0 then fault else write_at buf (osize / sz) 0);
          run OCI_RESULT res;
          ret (res, Some buf)
      end
  end.

(** OCI_RefGetHexSize (ref.c, lines 369-382). *)
Definition OCI_RefGetHexSize (ref : ptr) : M Z :=
  match ref with
  | None => run null_pointer OCI_IPC_REF; ret 0
  | Some p =>
      do r <- load_ref p;
      do tr <- direct (OCIRefHexSize (ref_handle r));
      let size := to_ub4 (nat_ub4 N tr (OCIRefHexSize (ref_handle r))) in
      let size := size / Z.pos (sizeof_mtext N) in
      run OCI_RESULT true;
      ret size
  end.

(** OCI_RefGetSchema (ref.c, lines 388-395). *)
Definition OCI_RefGetSchema (ref : ptr) : M ptr :=
  match ref with
  | None => run null_pointer OCI_IPC_REF; ret NULL
  | Some p =>
      run OCI_RESULT true;
      do r <- load_ref p;
      ret (ref_nty r)
  end.

(** ** The enqueue functions (second part of ref.c) *)

(** The two tables of ref.c, lines 438-439: arrays of unsigned int. *)
Definition VisibilityModeValues : list Z :=
  [to_ub4 (OCI_AMV_IMMEDIATE N); to_ub4 (OCI_AMV_ON_COMMIT N)].
Definition EnqueueModeValues : list Z :=
  [to_ub4 (OCI_ASD_BEFORE N); to_ub4 (OCI_ASD_TOP N)].

(** Modelled from the spec: OCI_CHECK_ENUM_VALUE of ocilib_checks.h is not
    among the sources.  Section 7: misuse of the API is a binding-internal
    error; the value has to be one of the listed ones, otherwise the invalid-value error
    is raised and the function returns. *)
Definition OCI_CHECK_ENUM_VALUE (v : Z) (values : list Z) : M bool :=
  if existsb (Z.eqb v) values then ret true
  else run emit (EvException ExcArgInvalidValue); ret false.

(** OCI_EnqueueFree (ref.c, lines 499-514).  The name is part of the
    structure here, so the two OCI_FREE calls give back one block. *)
Definition OCI_EnqueueFree (enqueue : ptr) : M bool :=
  match enqueue with
  | None => run null_pointer OCI_IPC_ENQUEUE; ret false
  | Some p =>
      do e <- load_enq p;
      run direct (OCIDescriptorFree (enq_opth e));
      run free_enq p;
      ret true
  end.

(** OCI_EnqueueCreate (ref.c, lines 449-493).  [name] is NULL or the text of
    the queue name. *)
Definition OCI_EnqueueCreate (typinf : option OCI_TypeInfo) (name : option (list Z))
  : M ptr :=
  do ini <- OCI_CHECK_INITIALIZED;
  if ini then
    match typinf with
    | None => run null_pointer OCI_IPC_TYPE_INFO; ret NULL
    | Some ti =>
        match name with
        | None => run null_pointer OCI_IPC_STRING; ret NULL
        | Some nm =>
            do tr <- get_trace;
            do rr <-
              (if mem_alloc_ok N tr then
                 do p <- alloc_enq (mkEnqueue None [] NULL);
                 run emit (EvMemAlloc OCI_IPC_ENQUEUE true);
                 run store_enq p (mkEnqueue (Some ti) nm NULL);
                 run deref (ti_con ti);             (* enqueue->typinf->con->env *)
                 do tr <- direct OCIDescriptorAlloc;
                 run store_enq p (mkEnqueue (Some ti) nm (nat_handle N tr OCIDescriptorAlloc));
                 ret (successful N (nat_status N tr OCIDescriptorAlloc), Some p)
               else
                 run emit (EvMemAlloc OCI_IPC_ENQUEUE false);
                 ret (false, NULL));
            if fst rr then ret (snd rr)
            else run OCI_EnqueueFree (snd rr); ret NULL
        end
    end
  else ret NULL.

(** OCI_EnqueuePut (ref.c, lines 520-572). *)
Definition OCI_EnqueuePut (enqueue : ptr) (msg : option OCI_Msg) : M bool :=
  match enqueue with
  | None => run null_pointer OCI_IPC_ENQUEUE; ret false
  | Some p =>
      match msg with
      | None => run null_pointer OCI_IPC_MSG; ret false
      | Some m =>
          do e <- load_enq p;
          do ti <- deref (enq_typinf e);
          do mti <- deref (msg_typinf m);
          if negb (ptr_eqb (ti_tdo ti) (ti_tdo mti)) then
            run emit (EvException (ExcTypeNotCompatible (ti_con ti)));
            ret false
          else
            do pi <-
              (if negb (OCI_UNKNOWN N =? ti_typecode ti) then
                 if negb (OCI_IND_NULL N =? msg_ind m) then
                   do o <- deref (msg_obj m);
                   ret (obj_handle o, IndTab (obj_tab_ind o))
                 else ret (NULL, IndNull)
               else ret (msg_payload m, IndOfMsg (msg_ind m)));
            do res <- OCI_CALL2 true (ti_con ti)
                        (OCIAQEnq (enq_name e) (enq_opth e) (msg_proph m) (ti_tdo ti)
                                  (fst pi) (snd pi));
            run OCI_RESULT res;
            ret res
      end
  end.

(** The connection reached through [enqueue->typinf->con]. *)
Definition enq_con (e : OCI_Enqueue) : M ptr :=
  do ti <- deref (enq_typinf e);
  ret (ti_con ti).

(** OCI_EnqueueGetVisibility (ref.c, lines 578-603). *)
Definition OCI_EnqueueGetVisibility (enqueue : ptr) : M Z :=
  match enqueue with
  | None => run null_pointer OCI_IPC_ENQUEUE; ret 0       (* FALSE *)
  | Some p =>
      do e <- load_enq p;
      do con <- enq_con e;
      do tr <- get_trace;
      let c := OCIAttrGet (enq_opth e) OCI_ATTR_VISIBILITY in
      do res <- OCI_CALL2 true con c;
      run OCI_RESULT res;
      ret (to_ub4 (nat_ub4 N tr c))
  end.

(** OCI_EnqueueSetVisibility (ref.c, lines 609-637).  The parameter is an
    unsigned int: the function sees the argument as such. *)
Definition OCI_EnqueueSetVisibility (enqueue : ptr) (visibility : Z) : M bool :=
  let visibility := to_ub4 visibility in
  match enqueue with
  | None => run null_pointer OCI_IPC_ENQUEUE; ret false
  | Some p =>
      do okv <- OCI_CHECK_ENUM_VALUE visibility VisibilityModeValues;
      if okv then
        do e <- load_enq p;
        do con <- enq_con e;
        do res <- OCI_CALL2 true con
                    (OCIAttrSetUb4 (enq_opth e) OCI_ATTR_VISIBILITY (to_ub4 visibility));
        run OCI_RESULT res;
        ret res
      else ret false
  end.

(** OCI_EnqueueGetSequenceDeviation (ref.c, lines 643-668). *)
Definition OCI_EnqueueGetSequenceDeviation (enqueue : ptr) : M Z :=
  match enqueue with
  | None => run null_pointer OCI_IPC_ENQUEUE; ret 0       (* FALSE *)
  | Some p =>
      do e <- load_enq p;
      do con <- enq_con e;
      do tr <- get_trace;
      let c := OCIAttrGet (enq_opth e) OCI_ATTR_SEQUENCE_DEVIATION in
      do res <- OCI_CALL2 true con c;
      run OCI_RESULT res;
      ret (to_ub4 (nat_ub4 N tr c))
  end.

(** OCI_EnqueueSetSequenceDeviation (ref.c, lines 674-702).  The
    parameter is an unsigned int: the function sees the argument as such. *)
Definition OCI_EnqueueSetSequenceDeviation (enqueue : ptr) (sequence : Z) : M bool :=
  let sequence := to_ub4 sequence in
  match enqueue with
  | None => run null_pointer OCI_IPC_ENQUEUE; ret false
  | Some p =>
      do okv <- OCI_CHECK_ENUM_VALUE sequence EnqueueModeValues;
      if okv then
        do e <- load_enq p;
        do con <- enq_con e;
        do res <- OCI_CALL2 true con
                    (OCIAttrSetUb4 (enq_opth e) OCI_ATTR_SEQUENCE_DEVIATION (to_ub4 sequence));
        run OCI_RESULT res;
        ret res
      else ret false
  end.

(** OCI_EnqueueGetRelativeMsgID (ref.c, lines 708-753).  [id] is NULL or the
    block the caller passed, [len] is NULL or the value stored in [*len]; the
    result carries the block and the value of [*len] on return.  The
    attribute fetch leaves in [value] the pointer [nat_handle]; the raw
    value behind a non-NULL pointer is the byte string [nat_bytes], whose
    length OCIRawSize reports and whose first byte OCIRawPtr points to. *)
Definition OCI_EnqueueGetRelativeMsgID (enqueue : ptr) (id : option (list Z))
  (len : option Z) : M (bool * option (list Z) * option Z) :=
  match enqueue with
  | None => run null_pointer OCI_IPC_ENQUEUE; ret (false, id, len)
  | Some p =>
      match id with
      | None => run null_pointer OCI_IPC_VOID; ret (false, id, len)
      | Some buf =>
          match len with
          | None => run null_pointer OCI_IPC_VOID; ret (false, id, len)
          | Some n =>
              do e <- load_enq p;
              do con <- enq_con e;
              do tr <- get_trace;
              let c := OCIAttrGet (enq_opth e) OCI_ATTR_RELATIVE_MSGID in
              do res <- OCI_CALL2 true con c;
              let value := nat_handle N tr c in
              do out <-
                (match value with
                 | Some _ =>
                     do tr1 <- direct (OCIRawSize value);
                     let raw := nat_bytes N tr1 (OCIRawSize value) in
                     let raw_len := to_ub4 (Z.of_nat (length raw)) in
                     let n := if raw_len <? n then raw_len else n in
                     run direct (OCIRawPtr value);
                     (* memcpy(id, OCIRawPtr(...), *len) *)
                     do buf <- copy_into (take (Z.to_nat n) raw) buf;
                     ret (buf, n)
                 | None => ret (buf, 0)
                 end);
              run OCI_RESULT res;
              ret (res, Some (fst out), Some (snd out))
          end
      end
  end.

(** OCI_EnqueueSetRelativeMsgID (ref.c, lines 759-794). *)
Definition OCI_EnqueueSetRelativeMsgID (enqueue : ptr) (id : list Z) (len : Z)
  : M bool :=
  match enqueue with
  | None => run null_pointer OCI_IPC_ENQUEUE; ret false
  | Some p =>
      do e <- load_enq p;
      do con <- enq_con e;
      do tr <- get_trace;
      let c := OCIRawAssignBytes id (to_ub4 len) in
      do res <- OCI_CALL2 true con c;
      let value := nat_handle N tr c in
      do res <- OCI_CALL2 res con (OCIAttrSetRaw (enq_opth e) OCI_ATTR_RELATIVE_MSGID value);
      run OCI_RESULT res;
      ret res
  end.

End Binding.

(** * Reasoning about runs *)

(** ** Inversion of the monad's primitives *)

Lemma bind_Some {A B} (m : M A) (k : A -> M B) s b s' :
  bind m k s = Some (b, s') ->
  exists a s1, m s = Some (a, s1) /\ k a s1 = Some (b, s').
Proof.
  unfold bind. destruct (m s) as [[a s1]|]; [|discriminate].
  intros H. exists a, s1. split; [reflexivity|exact H].
Qed.

Lemma bind_None {A B} (m : M A) (k : A -> M B) s :
  bind m k s = None ->
  m s = None \/ exists a s1, m s = Some (a, s1) /\ k a s1 = None.
Proof.
  unfold bind. destruct (m s) as [[a s1]|]; [|now left].
  intros H. right. exists a, s1. split; [reflexivity|exact H].
Qed.

Lemma load_ref_Some p s r s' :
  load_ref p s = Some (r, s') -> s' = s /\ refs s !! p = Some r.
Proof.
  unfold load_ref. destruct (refs s !! p); [|discriminate].
  intros H. injection H as -> ->. auto.
Qed.

Lemma load_ref_None p s : load_ref p s = None -> refs s !! p = None.
Proof. unfold load_ref. destruct (refs s !! p); [discriminate|auto]. Qed.

Lemma store_ref_Some p r s u s' :
  store_ref p r s = Some (u, s') ->
  is_Some (refs s !! p) /\
  s' = mkState (loaded s) (<[p:=r]> (refs s)) (objs s) (enqs s) (trace s).
Proof.
  unfold store_ref. destruct (refs s !! p) eqn:E; [|discriminate].
  intros [= _ <-]. split; [eauto|reflexivity].
Qed.

Lemma store_ref_None p r s : store_ref p r s = None -> refs s !! p = None.
Proof. unfold store_ref. destruct (refs s !! p); [discriminate|auto]. Qed.

Lemma update_ref_Some p f s u s' :
  update_ref p f s = Some (u, s') ->
  exists r, refs s !! p = Some r /\
    s' = mkState (loaded s) (<[p:=f r]> (refs s)) (objs s) (enqs s) (trace s).
Proof.
  unfold update_ref. intros H. apply bind_Some in H as (r & s1 & H1 & H2).
  apply load_ref_Some in H1 as [-> H1]. apply store_ref_Some in H2 as [_ ->].
  exists r. auto.
Qed.

Lemma update_ref_None p f s : update_ref p f s = None -> refs s !! p = None.
Proof.
  unfold update_ref. intros H. apply bind_None in H as [H|(r & s1 & H1 & H2)].
  - now apply load_ref_None.
  - apply load_ref_Some in H1 as [-> H1]. now apply store_ref_None in H2.
Qed.

Lemma load_obj_Some p s o s' :
  load_obj p s = Some (o, s') -> s' = s /\ objs s !! p = Some o.
Proof.
  unfold load_obj. destruct (objs s !! p); [|discriminate].
  intros H. injection H as -> ->. auto.
Qed.

Lemma load_obj_None p s : load_obj p s = None -> objs s !! p = None.
Proof. unfold load_obj. destruct (objs s !! p); [discriminate|auto]. Qed.

Lemma store_obj_Some p o s u s' :
  store_obj p o s = Some (u, s') ->
  is_Some (objs s !! p) /\
  s' = mkState (loaded s) (refs s) (<[p:=o]> (objs s)) (enqs s) (trace s).
Proof.
  unfold store_obj. destruct (objs s !! p) eqn:E; [|discriminate].
  intros [= _ <-]. split; [eauto|reflexivity].
Qed.

Lemma store_obj_None p o s : store_obj p o s = None -> objs s !! p = None.
Proof. unfold store_obj. destruct (objs s !! p); [discriminate|auto]. Qed.

Lemma load_enq_Some p s e s' :
  load_enq p s = Some (e, s') -> s' = s /\ enqs s !! p = Some e.
Proof.
  unfold load_enq. destruct (enqs s !! p); [|discriminate].
  intros H. injection H as -> ->. auto.
Qed.

Lemma load_enq_None p s : load_enq p s = None -> enqs s !! p = None.
Proof. unfold load_enq. destruct (enqs s !! p); [discriminate|auto]. Qed.

Lemma free_ref_Some p s u s' :
  free_ref p s = Some (u, s') ->
  is_Some (refs s !! p) /\
  s' = mkState (loaded s) (delete p (refs s)) (objs s) (enqs s)
         (EvMemFree OCI_IPC_REF p :: trace s).
Proof.
  unfold free_ref. destruct (refs s !! p) eqn:E; [|discriminate].
  intros [= _ <-]. split; [eauto|reflexivity].
Qed.

Lemma free_ref_None p s : free_ref p s = None -> refs s !! p = None.
Proof. unfold free_ref. destruct (refs s !! p); [discriminate|auto]. Qed.

Lemma free_obj_Some p s u s' :
  free_obj p s = Some (u, s') ->
  is_Some (objs s !! p) /\
  s' = mkState (loaded s) (refs s) (delete p (objs s)) (enqs s)
         (EvMemFree OCI_IPC_OBJECT p :: trace s).
Proof.
  unfold free_obj. destruct (objs s !! p) eqn:E; [|discriminate].
  intros [= _ <-]. split; [eauto|reflexivity].
Qed.

Lemma free_obj_None p s : free_obj p s = None -> objs s !! p = None.
Proof. unfold free_obj. destruct (objs s !! p); [discriminate|auto]. Qed.

Lemma store_enq_Some p e s u s' :
  store_enq p e s = Some (u, s') ->
  is_Some (enqs s !! p) /\
  s' = mkState (loaded s) (refs s) (objs s) (<[p:=e]> (enqs s)) (trace s).
Proof.
  unfold store_enq. destruct (enqs s !! p) eqn:E; [|discriminate].
  intros [= _ <-]. split; [eauto|reflexivity].
Qed.

Lemma store_enq_None p e s : store_enq p e s = None -> enqs s !! p = None.
Proof. unfold store_enq. destruct (enqs s !! p); [discriminate|auto]. Qed.

Lemma free_enq_Some p s u s' :
  free_enq p s = Some (u, s') ->
  is_Some (enqs s !! p) /\
  s' = mkState (loaded s) (refs s) (objs s) (delete p (enqs s))
         (EvMemFree OCI_IPC_ENQUEUE p :: trace s).
Proof.
  unfold free_enq. destruct (enqs s !! p) eqn:E; [|discriminate].
  intros [= _ <-]. split; [eauto|reflexivity].
Qed.

Lemma free_enq_None p s : free_enq p s = None -> enqs s !! p = None.
Proof. unfold free_enq. destruct (enqs s !! p); [discriminate|auto]. Qed.

Lemma alloc_ref_Some s a s' :
  alloc_ref s = Some (a, s') ->
  a = fresh (dom (refs s)) /\
  s' = mkState (loaded s) (<[a:=zero_ref]> (refs s)) (objs s) (enqs s) (trace s).
Proof. unfold alloc_ref. intros [= <- <-]. auto. Qed.

Lemma alloc_obj_Some o s a s' :
  alloc_obj o s = Some (a, s') ->
  a = fresh (dom (objs s)) /\
  s' = mkState (loaded s) (refs s) (<[a:=o]> (objs s)) (enqs s) (trace s).
Proof. unfold alloc_obj. intros [= <- <-]. auto. Qed.

Lemma alloc_enq_Some e s a s' :
  alloc_enq e s = Some (a, s') ->
  a = fresh (dom (enqs s)) /\
  s' = mkState (loaded s) (refs s) (objs s) (<[a:=e]> (enqs s)) (trace s).
Proof. unfold alloc_enq. intros [= <- <-]. auto. Qed.

Lemma emit_Some e s u s' :
  emit e s = Some (u, s') ->
  s' = mkState (loaded s) (refs s) (objs s) (enqs s) (e :: trace s).
Proof. unfold emit. now intros [= _ <-]. Qed.

Lemma get_trace_Some s t s' : get_trace s = Some (t, s') -> t = trace s /\ s' = s.
Proof. unfold get_trace. intros H. injection H as <- <-. auto. Qed.

Lemma get_loaded_Some s t s' : get_loaded s = Some (t, s') -> t = loaded s /\ s' = s.
Proof. unfold get_loaded. intros H. injection H as <- <-. auto. Qed.

Lemma ret_Some {A} (a b : A) s s' : ret a s = Some (b, s') -> a = b /\ s = s'.
Proof. unfold ret. intros H. injection H as <- <-. auto. Qed.

Lemma hstate_eqb_eq a b : hstate_eqb a b = true <-> a = b.
Proof. destruct a, b; cbn; split; congruence. Qed.

Lemma hstate_eqb_neq a b : hstate_eqb a b = false <-> a <> b.
Proof. destruct a, b; cbn; split; congruence. Qed.

Lemma ptr_eqb_eq a b : ptr_eqb a b = true <-> a = b.
Proof.
  destruct a as [x|], b as [y|]; cbn; try (split; congruence).
  rewrite Pos.eqb_eq. split; congruence.
Qed.

Lemma ptr_eqb_neq a b : ptr_eqb a b = false <-> a <> b.
Proof.
  rewrite <- ptr_eqb_eq. destruct (ptr_eqb a b); split; congruence.
Qed.

(** ** Symbolic execution

    [minv] takes apart every hypothesis that states the outcome of a run,
    one primitive at a time, and leaves lookups in the store. *)

Ltac mred :=
  unfold OCI_CHECK_OBJECT_FETCHED in *;
  cbn [loaded refs objs enqs trace fst snd deref
       ref_obj ref_handle ref_hstate ref_pinned ref_con ref_nty
       set_ref_obj set_ref_handle set_ref_hstate set_ref_pinned set_ref_con set_ref_nty
       obj_handle obj_hstate obj_tab_ind set_obj_hstate hstate_eqb
       enq_typinf enq_name enq_opth ti_con ti_tdo ti_typecode] in *;
  repeat match goal with
         | H : context [<[?k:=_]> _ !! ?k] |- _ => rewrite lookup_insert_eq in H
         | H : context [delete ?k _ !! ?k] |- _ => rewrite lookup_delete_eq in H
         end.

Ltac minv1 :=
  match goal with
  | H : Some _ = Some _ |- _ => injection H as H; try subst
  | H : Some _ = None |- _ => discriminate H
  | H : None = Some _ |- _ => discriminate H
  | H : NULL = Some _ |- _ => discriminate H
  | H : Some _ = NULL |- _ => discriminate H
  | H : true = false |- _ => discriminate H
  | H : false = true |- _ => discriminate H
  | H : (_, _) = (_, _) |- _ => injection H as ? ?; try subst
  | H : is_Some _ |- _ => clear H
  | H : _ = Some ?x |- _ =>
      is_var x;
      lazymatch type of x with (_ * _)%type => destruct x end
  | H : bind _ _ _ = Some (_, _) |- _ =>
      let H1 := fresh "Hm" in
      apply bind_Some in H as (? & ? & H1 & H)
  | H : bind _ _ _ = None |- _ =>
      let H1 := fresh "Hm" in
      apply bind_None in H as [H|(? & ? & H1 & H)]
  | H : ret _ _ = Some (_, _) |- _ => apply ret_Some in H as [? ?]; try subst
  | H : ret _ _ = None |- _ => discriminate H
  | H : fault _ = Some _ |- _ => discriminate H
  | H : deref ?p _ = _ |- _ => destruct p eqn:?; cbn [deref] in H
  | H : emit _ _ = Some (_, _) |- _ => apply emit_Some in H; try subst
  | H : emit _ _ = None |- _ => discriminate H
  | H : get_trace _ = Some (_, _) |- _ => apply get_trace_Some in H as [? ?]; try subst
  | H : get_trace _ = None |- _ => discriminate H
  | H : get_loaded _ = Some (_, _) |- _ => apply get_loaded_Some in H as [? ?]; try subst
  | H : get_loaded _ = None |- _ => discriminate H
  | H : load_ref _ _ = Some (_, _) |- _ => apply load_ref_Some in H as [? H]; try subst
  | H : load_ref _ _ = None |- _ => apply load_ref_None in H
  | H : store_ref _ _ _ = Some (_, _) |- _ => apply store_ref_Some in H as [? ?]; try subst
  | H : store_ref _ _ _ = None |- _ => apply store_ref_None in H
  | H : update_ref _ _ _ = Some (_, _) |- _ => apply update_ref_Some in H as (? & H & ?); try subst
  | H : update_ref _ _ _ = None |- _ => apply update_ref_None in H
  | H : load_obj _ _ = Some (_, _) |- _ => apply load_obj_Some in H as [? H]; try subst
  | H : load_obj _ _ = None |- _ => apply load_obj_None in H
  | H : store_obj _ _ _ = Some (_, _) |- _ => apply store_obj_Some in H as [? ?]; try subst
  | H : store_obj _ _ _ = None |- _ => apply store_obj_None in H
  | H : load_enq _ _ = Some (_, _) |- _ => apply load_enq_Some in H as [? H]; try subst
  | H : load_enq _ _ = None |- _ => apply load_enq_None in H
  | H : free_ref _ _ = Some (_, _) |- _ => apply free_ref_Some in H as [? ?]; try subst
  | H : free_ref _ _ = None |- _ => apply free_ref_None in H
  | H : free_obj _ _ = Some (_, _) |- _ => apply free_obj_Some in H as [? ?]; try subst
  | H : free_obj _ _ = None |- _ => apply free_obj_None in H
  | H : store_enq _ _ _ = Some (_, _) |- _ => apply store_enq_Some in H as [? ?]; try subst
  | H : store_enq _ _ _ = None |- _ => apply store_enq_None in H
  | H : free_enq _ _ = Some (_, _) |- _ => apply free_enq_Some in H as [? ?]; try subst
  | H : free_enq _ _ = None |- _ => apply free_enq_None in H
  | H : alloc_ref _ = Some (_, _) |- _ => apply alloc_ref_Some in H as [? ?]; try subst
  | H : alloc_ref _ = None |- _ => discriminate H
  | H : alloc_obj _ _ = Some (_, _) |- _ => apply alloc_obj_Some in H as [? ?]; try subst
  | H : alloc_obj _ _ = None |- _ => discriminate H
  | H : alloc_enq _ _ = Some (_, _) |- _ => apply alloc_enq_Some in H as [? ?]; try subst
  | H : alloc_enq _ _ = None |- _ => discriminate H
  | H : (if ?b then _ else _) ?s = _ |- _ =>
      lazymatch type of s with State => destruct b eqn:? end
  | H : (match ?x with _ => _ end) ?s = _ |- _ =>
      lazymatch type of s with State => destruct x eqn:? end
  | H1 : ?t = Some ?a, H2 : ?t = Some ?b |- _ =>
      assert (a = b) by congruence; clear H2; try subst
  | H1 : ?t = Some _, H2 : ?t = None |- _ => congruence
  | H1 : ?t = true, H2 : ?t = false |- _ => congruence
  | H : hstate_eqb _ _ = true |- _ => apply hstate_eqb_eq in H
  | H : hstate_eqb _ _ = false |- _ => apply hstate_eqb_neq in H
  | H : ptr_eqb _ _ = true |- _ => apply ptr_eqb_eq in H
  | H : ptr_eqb _ _ = false |- _ => apply ptr_eqb_neq in H
  | H : negb _ = true |- _ => apply negb_true_iff in H
  | H : negb _ = false |- _ => apply negb_false_iff in H
  end.

Ltac minv := repeat (mred; minv1); mred.

(** ** Events added by a run *)

(** Every call made through the translator macro reported success. *)
Definition wrapped_ok (N : Native) (delta : list Event) : Prop :=
  forall c st, In (EvCall2 c st) delta -> call2_ok N st = true.

Lemma delta_nil (t : list Event) : t = [] ++ t.
Proof. reflexivity. Qed.

Lemma delta_cons (e : Event) l d t : l = d ++ t -> e :: l = (e :: d) ++ t.
Proof. intros ->. reflexivity. Qed.

Lemma delta_trans (d1 d2 l t : list Event) : l = d2 ++ t -> d1 ++ l = (d1 ++ d2) ++ t.
Proof. intros ->. now rewrite app_assoc. Qed.

Ltac solve_delta :=
  repeat first [ apply delta_nil | apply delta_cons | reflexivity | apply delta_trans ].

Ltac in_cases :=
  cbn [In app] in *; intuition (try discriminate; simplify_eq; eauto).

(** A failed wrapped call refutes [wrapped_ok]. *)
Ltac refute_wrapped :=
  let Hw := fresh "Hw" in
  intros Hw; exfalso;
  match goal with
  | Hf : call2_ok ?N ?st = false |- _ =>
      assert (call2_ok N st = true)
        by (eapply Hw; cbn [In app]; eauto 12);
      congruence
  end.

Lemma set_ref_obj_pinned_id r :
  ref_pinned r = false -> ref_obj r = NULL ->
  set_ref_obj NULL (set_ref_pinned false r) = r.
Proof. destruct r; cbn; intros -> ->; reflexivity. Qed.

Lemma set_ref_obj_id r : ref_obj r = NULL -> set_ref_obj NULL r = r.
Proof. destruct r; cbn; intros ->; reflexivity. Qed.

Lemma set_ref_pinned_id r : ref_pinned r = false -> set_ref_pinned false r = r.
Proof. destruct r; cbn; intros ->; reflexivity. Qed.

Ltac tidy_refs :=
  rewrite ?insert_insert_eq;
  try (rewrite set_ref_obj_pinned_id by assumption);
  try (rewrite set_ref_obj_id by assumption);
  try (rewrite set_ref_pinned_id by assumption);
  try (rewrite insert_id by assumption).

(** ** OCI_RefUnpin *)

(** What a returning OCI_RefUnpin has done. *)
Lemma OCI_RefUnpin_Some N p r s res s' :
  refs s !! p = Some r -> OCI_RefUnpin N (Some p) s = Some (res, s') ->
  exists delta,
    trace s' = delta ++ trace s /\ loaded s' = loaded s /\ enqs s' = enqs s /\
    refs s' = <[p := set_ref_obj NULL (set_ref_pinned false r)]> (refs s) /\
    (res = true <-> wrapped_ok N delta) /\
    (forall c, ~ In (EvDirect c) delta) /\
    (forall l o, In (EvObjectFree l o) delta -> obj_hstate o = OCI_OBJECT_FETCHED_DIRTY) /\
    (forall l, ref_obj r = Some l ->
       exists o, objs s !! l = Some o /\
                 In (EvObjectFree l (set_obj_hstate OCI_OBJECT_FETCHED_DIRTY o)) delta) /\
    (forall a, ~ In (EvMemFree OCI_IPC_REF a) delta).
Proof.
  intros Hr Hrun.
  unfold OCI_RefUnpin, OCI_ObjectFree, OCI_CALL2, OCI_RESULT, direct, null_pointer in Hrun.
  cbv zeta in Hrun. minv.
  all: eexists; split; [solve_delta|].
  all: repeat split; try reflexivity.
  all: tidy_refs; try reflexivity.
  all: unfold wrapped_ok.
  all: try solve [in_cases].
  all: try solve [refute_wrapped].
  all: intros l Hl; simplify_eq; eexists; split; [eassumption|in_cases].
Qed.

(** A reference is fit for unpinning when its pinned flag is backed by a live
    object, its object pointer is not dangling, and a pinned reference has a
    connection. *)
Definition unpin_ready (s : State) (r : OCI_Ref) : Prop :=
  (ref_pinned r = true -> ref_obj r <> NULL /\ ref_con r <> NULL) /\
  (forall l, ref_obj r = Some l -> is_Some (objs s !! l)).

Lemma OCI_RefUnpin_returns N p r s :
  refs s !! p = Some r -> unpin_ready s r ->
  exists res s', OCI_RefUnpin N (Some p) s = Some (res, s').
Proof.
  intros Hr [Hpin Hobj].
  destruct (OCI_RefUnpin N (Some p) s) as [[res s']|] eqn:Hrun; [eauto|exfalso].
  unfold OCI_RefUnpin, OCI_ObjectFree, OCI_CALL2, OCI_RESULT, direct, null_pointer in Hrun.
  cbv zeta in Hrun. minv.
  all: try (destruct Hpin as [? ?]; [assumption|]; unfold NULL in *; congruence).
  all: try (match goal with
            | Ho : ref_obj _ = Some ?l, Hn : objs _ !! ?l = None |- _ =>
                destruct (Hobj _ Ho) as [? ?]; congruence
            end).
Qed.

(** C3: for a non-NULL reference, OCI_RefUnpin returns whenever the reference
    is fit for unpinning, and whenever it returns the reference is unpinned
    and has no dependent object; a dependent object that existed was handed
    to OCI_ObjectFree in the fetched-dirty state, and no native release was
    performed during the call. *)
Theorem OCI_RefUnpin_clears N p r s :
  refs s !! p = Some r ->
  (unpin_ready s r -> exists res s', OCI_RefUnpin N (Some p) s = Some (res, s')) /\
  (forall res s', OCI_RefUnpin N (Some p) s = Some (res, s') ->
     exists r' delta,
       refs s' !! p = Some r' /\ ref_pinned r' = false /\ ref_obj r' = NULL /\
       trace s' = delta ++ trace s /\
       (forall l, ref_obj r = Some l ->
          exists o, objs s !! l = Some o /\
                    In (EvObjectFree l (set_obj_hstate OCI_OBJECT_FETCHED_DIRTY o)) delta) /\
       (forall l o, In (EvObjectFree l o) delta ->
          obj_hstate o = OCI_OBJECT_FETCHED_DIRTY) /\
       (forall h, ~ In (EvDirect (OCIObjectFree h)) delta)).
Proof.
  intros Hr. split.
  - intros Hw. eapply OCI_RefUnpin_returns; eauto.
  - intros res s' Hrun.
    destruct (OCI_RefUnpin_Some _ _ _ _ _ _ Hr Hrun)
      as (delta & Ht & _ & _ & Hrefs & _ & Hd & Hdirty & Hobj & _).
    exists (set_ref_obj NULL (set_ref_pinned false r)), delta.
    rewrite Hrefs, lookup_insert_eq. repeat split; auto.
Qed.

(** ** OCI_RefFree *)

Ltac use_unpin :=
  match goal with
  | Hr : refs ?s !! ?p = Some ?r,
    H : OCI_RefUnpin ?N (Some ?p) ?s = Some (?res, ?s1) |- _ =>
      let d := fresh "du" in
      let Htr := fresh "Htr" in
      let Hld := fresh "Hld" in
      let Henq := fresh "Henq" in
      let Hrefs := fresh "Hrefs" in
      let Hres := fresh "Hres" in
      let Hnd := fresh "Hnd" in
      let Hdirty := fresh "Hdirty" in
      let Hobj := fresh "Hobj" in
      let Hnf := fresh "Hnf" in
      destruct (OCI_RefUnpin_Some N p r s res s1 Hr H)
        as (d & Htr & Hld & Henq & Hrefs & Hres & Hnd & Hdirty & Hobj & Hnf);
      clear H;
      rewrite ?Hrefs, ?Htr, ?Hld, ?Henq in *
  end.

(** A reference is fit for release when it is fit for unpinning and an
    application-created reference has a connection. *)
Definition free_ready (s : State) (r : OCI_Ref) : Prop :=
  unpin_ready s r /\ (ref_hstate r = OCI_OBJECT_ALLOCATED -> ref_con r <> NULL).

(** C2: for a non-NULL reference, OCI_RefFree returns whenever the reference
    is fit for release; the native release OCIObjectFree is called on the
    reference's handle if and only if the reference is in the allocated
    state, and no other direct native call is made; in the fetched-clean
    state the call returns FALSE and leaves the whole state as it was;
    otherwise it returns TRUE and gives the structure back. *)
Theorem OCI_RefFree_native_release N p r s :
  refs s !! p = Some r ->
  (free_ready s r -> exists b s', OCI_RefFree N (Some p) s = Some (b, s')) /\
  (forall b s', OCI_RefFree N (Some p) s = Some (b, s') ->
     exists delta, trace s' = delta ++ trace s /\
       (In (EvDirect (OCIObjectFree (ref_handle r))) delta <->
        ref_hstate r = OCI_OBJECT_ALLOCATED) /\
       (forall c, In (EvDirect c) delta -> c = OCIObjectFree (ref_handle r)) /\
       (ref_hstate r = OCI_OBJECT_FETCHED_CLEAN -> b = false /\ s' = s) /\
       (ref_hstate r <> OCI_OBJECT_FETCHED_CLEAN ->
        b = true /\ refs s' = delete p (refs s) /\ In (EvMemFree OCI_IPC_REF p) delta)).
Proof.
  intros Hr. split.
  - intros [Hu Hc].
    destruct (OCI_RefFree N (Some p) s) as [[b s']|] eqn:Hrun; [eauto|exfalso].
    unfold OCI_RefFree, OCI_RESULT, direct, null_pointer in Hrun.
    cbv zeta in Hrun. minv.
    all: try (destruct (OCI_RefUnpin_returns N p _ _ Hr Hu) as (? & ? & ?); congruence).
    all: use_unpin; minv.
    all: try (unfold NULL in *; intuition congruence).
  - intros b s' Hrun.
    unfold OCI_RefFree, OCI_RESULT, direct, null_pointer in Hrun.
    cbv zeta in Hrun. minv.
    1: { exists []. repeat split; try reflexivity; try congruence; in_cases. }
    all: use_unpin; minv.
    all: eexists; split; [solve_delta|].
    all: repeat split; try reflexivity; try congruence.
    all: rewrite ?delete_insert_eq; try reflexivity.
    all: cbn [In app]; rewrite ?in_app_iff; cbn [In].
    all: try tauto.
    all: intuition (try discriminate; simplify_eq; try tauto; try congruence;
                    exfalso; eapply Hnd; eauto).
Qed.

(** ** NULL arguments *)

(** The state after an OCI_ExceptionXXX call: only the trace has grown. *)
Definition raised (e : exc_t) (s : State) : State :=
  mkState (loaded s) (refs s) (objs s) (enqs s) (EvException e :: trace s).

(** C4: every public OCI_Ref entry point called with a NULL reference raises
    the null-pointer error for OCI_IPC_REF and returns at once, touching
    neither the stores nor any native entry point: OCI_RefFree,
    OCI_RefAssign, OCI_RefSetNull and OCI_RefToText return FALSE,
    OCI_RefGetObject and OCI_RefGetSchema return NULL, OCI_RefGetHexSize
    returns 0 and OCI_RefIsNull returns TRUE. *)
Theorem null_ref_fails_fast N s :
  let s' := raised (ExcNullPointer OCI_IPC_REF) s in
  OCI_RefFree N NULL s = Some (false, s') /\
  (forall src, OCI_RefAssign N NULL src s = Some (false, s')) /\
  OCI_RefSetNull N NULL s = Some (false, s') /\
  (forall size str, OCI_RefToText N NULL size str s = Some ((false, str), s')) /\
  OCI_RefGetObject N NULL s = Some (NULL, s') /\
  OCI_RefGetSchema NULL s = Some (NULL, s') /\
  OCI_RefGetHexSize N NULL s = Some (0, s') /\
  OCI_RefIsNull N NULL s = Some (true, s').
Proof. repeat split. Qed.

(** ** Creation before initialisation *)

(** C6: while the library is not initialised, OCI_RefCreate and
    OCI_EnqueueCreate raise the not-initialised error and return NULL before
    they look at their arguments; the stores are unchanged and neither an
    allocation nor a native call is made. *)
Theorem create_requires_initialize N s :
  loaded s = false ->
  (forall con schema,
     OCI_RefCreate N con schema s = Some (NULL, raised ExcNotInitialized s)) /\
  (forall typinf name,
     OCI_EnqueueCreate N typinf name s = Some (NULL, raised ExcNotInitialized s)).
Proof.
  intros Hl. split; intros;
    unfold OCI_RefCreate, OCI_EnqueueCreate, OCI_CHECK_INITIALIZED, bind, get_loaded;
    rewrite Hl; reflexivity.
Qed.

(** * Concrete runs *)

(** A native library in which every call succeeds (status 0), pin and
    allocation calls hand out the handle 9, a reference converts to the hex
    text "ABCD" and the stored raw value is 1,2,3. *)
Definition N_ok : Native :=
  mkNative (fun _ _ => 0)
           (fun _ _ => Some 9%positive)
           (fun _ _ => false)
           (fun _ _ => 4)
           (fun _ c => match c with
                       | OCIRefToHex _ _ _ => [65; 66; 67; 68]
                       | _ => [1; 2; 3]
                       end)
           (Z.eqb 0) (Z.eqb 0) 1%positive
           (fun _ => true)
           0 (-1) 1 2 2 3
           (fun _ h => Some (mkObject h OCI_OBJECT_FETCHED_CLEAN NULL))
           (fun _ _ => NULL).

(** The same library, except that OCIObjectUnpin reports an error. *)
Definition N_unpin_fails : Native :=
  mkNative (fun _ c => match c with OCIObjectUnpin _ => -1 | _ => 0 end)
           (nat_handle N_ok) (nat_bool N_ok) (nat_ub4 N_ok) (nat_bytes N_ok)
           (Z.eqb 0) (Z.eqb 0) 1%positive
           (fun _ => true)
           0 (-1) 1 2 2 3
           (object_init N_ok) (object_init_left N_ok).

(** An application-created reference, pinned on the object at address 1. *)
Definition r_pinned : OCI_Ref :=
  mkRef (Some 1%positive) (Some 2%positive) OCI_OBJECT_ALLOCATED true
        (Some 3%positive) (Some 4%positive).

(** An unpinned reference of the same type. *)
Definition r_plain : OCI_Ref :=
  mkRef NULL (Some 6%positive) OCI_OBJECT_ALLOCATED false
        (Some 3%positive) (Some 4%positive).

Definition o_pinned : OCI_Object :=
  mkObject (Some 5%positive) OCI_OBJECT_FETCHED_CLEAN NULL.

(** One pinned reference at address 1. *)
Definition s_pinned : State :=
  mkState true {[ 1%positive := r_pinned ]} {[ 1%positive := o_pinned ]} ∅ [].

(** An unpinned reference at address 1 and a pinned one at address 2. *)
Definition s_two : State :=
  mkState true (<[ 1%positive := r_plain ]> {[ 2%positive := r_pinned ]})
          {[ 1%positive := o_pinned ]} ∅ [].

(** ** The pinned flag and the dependent object *)

(** The flag of a reference is backed by an object. *)
Definition ref_consistent (r : OCI_Ref) : bool :=
  implb (ref_pinned r) (negb (ptr_eqb (ref_obj r) NULL)).

(** [ref->pinned == TRUE] implies [ref->obj != NULL], for every live
    reference. *)
Definition pinned_has_obj (s : State) : Prop :=
  forall q r, refs s !! q = Some r -> ref_consistent r = true.

Lemma s_two_pinned_has_obj : pinned_has_obj s_two.
Proof.
  intros q r H. unfold s_two in H. cbn [refs] in H.
  apply lookup_insert_Some in H as [[_ <-]|[_ H]]; [reflexivity|].
  apply lookup_singleton_Some in H as [_ <-]. reflexivity.
Qed.

(** C8 at its failing input: OCI_RefAssign from a pinned source copies the
    pinned flag but leaves the destination without an object.  The state
    before the call satisfies the invariant, the call returns TRUE, the
    state after it does not satisfy the invariant, and the next
    OCI_RefUnpin on the destination dereferences the NULL object pointer. *)
Theorem OCI_RefAssign_pinned_source :
  pinned_has_obj s_two /\
  exists s',
    OCI_RefAssign N_ok (Some 1%positive) (Some 2%positive) s_two = Some (true, s') /\
    (exists r, refs s' !! 1%positive = Some r /\
               ref_pinned r = true /\ ref_obj r = NULL) /\
    ~ pinned_has_obj s' /\
    OCI_RefUnpin N_ok (Some 1%positive) s' = None.
Proof.
  split; [exact s_two_pinned_has_obj|].
  eexists. split; [vm_compute; reflexivity|].
  split; [eexists; split; [vm_compute; reflexivity|split; reflexivity]|].
  split; [|vm_compute; reflexivity].
  intros H. specialize (H 1%positive _ eq_refl). discriminate H.
Qed.

Lemma s_pinned_unpin_ready : unpin_ready s_pinned r_pinned.
Proof.
  split.
  - intros _. split; discriminate.
  - intros l [= <-]. exists o_pinned. reflexivity.
Defined.

Lemma OCI_RefUnpin_clears_witness :
  refs s_pinned !! 1%positive = Some r_pinned /\
  exists res s', OCI_RefUnpin N_unpin_fails (Some 1%positive) s_pinned = Some (res, s').
Proof.
  assert (H : refs s_pinned !! 1%positive = Some r_pinned) by reflexivity.
  split; [exact H|].
  apply (proj1 (OCI_RefUnpin_clears N_unpin_fails 1%positive r_pinned s_pinned H)).
  exact s_pinned_unpin_ready.
Defined.

Lemma OCI_RefFree_native_release_witness :
  refs s_pinned !! 1%positive = Some r_pinned /\
  exists b s', OCI_RefFree N_ok (Some 1%positive) s_pinned = Some (b, s').
Proof.
  assert (H : refs s_pinned !! 1%positive = Some r_pinned) by reflexivity.
  split; [exact H|].
  apply (proj1 (OCI_RefFree_native_release N_ok 1%positive r_pinned s_pinned H)).
  split; [exact s_pinned_unpin_ready|discriminate].
Defined.

(** The library before the initialize call. *)
Definition s_unloaded : State := mkState false ∅ ∅ ∅ [].

Lemma create_requires_initialize_witness :
  loaded s_unloaded = false /\
  OCI_RefCreate N_ok (Some 3%positive) (Some 4%positive) s_unloaded =
    Some (NULL, raised ExcNotInitialized s_unloaded).
Proof.
  split; [reflexivity|].
  apply (proj1 (create_requires_initialize N_ok s_unloaded eq_refl)).
Defined.

(** ** OCI_EnqueueGetRelativeMsgID *)

Lemma to_ub4_le z : 0 <= z -> 0 <= to_ub4 z <= z.
Proof.
  intros Hz. unfold to_ub4. split.
  - apply Z.mod_pos_bound. lia.
  - apply Z.mod_le; lia.
Qed.

Lemma copy_count (raw : list Z) n :
  0 <= n ->
  let k := if to_ub4 (Z.of_nat (length raw)) <? n
           then to_ub4 (Z.of_nat (length raw)) else n in
  k = Z.min n (to_ub4 (Z.of_nat (length raw))) /\
  length (take (Z.to_nat k) raw) = Z.to_nat k /\ 0 <= k <= n.
Proof.
  intros Hn k. pose proof (to_ub4_le (Z.of_nat (length raw)) ltac:(lia)) as Hu.
  assert (Hk : k = Z.min n (to_ub4 (Z.of_nat (length raw)))).
  { subst k. destruct (Z.ltb_spec (to_ub4 (Z.of_nat (length raw))) n); lia. }
  split; [exact Hk|]. split; [|lia].
  rewrite length_take. lia.
Qed.

(** C9: with non-NULL arguments, a live enqueue object and a successful
    attribute fetch, OCI_EnqueueGetRelativeMsgID returns TRUE; when a raw
    value is present, the first min( *len, size of the raw value) bytes of it
    replace the start of [id], the rest of [id] is left alone and [*len]
    holds that count; when none is present, [*len] is 0 and [id] is
    unchanged.  The caller's [*len] is an unsigned int that does not exceed
    the block behind [id]. *)
Theorem OCI_EnqueueGetRelativeMsgID_copies N p e ti cn s buf n :
  enqs s !! p = Some e -> enq_typinf e = Some ti -> ti_con ti = Some cn ->
  0 <= n -> n <= Z.of_nat (length buf) ->
  let c := OCIAttrGet (enq_opth e) OCI_ATTR_RELATIVE_MSGID in
  let st := nat_status N (trace s) c in
  let value := nat_handle N (trace s) c in
  let raw := nat_bytes N (EvCall2 c st :: trace s) (OCIRawSize value) in
  let raw_len := to_ub4 (Z.of_nat (length raw)) in
  call2_ok N st = true ->
  exists s' buf' n',
    OCI_EnqueueGetRelativeMsgID N (Some p) (Some buf) (Some n) s =
      Some ((true, Some buf', Some n'), s') /\
    match value with
    | Some _ =>
        n' = Z.min n raw_len /\
        buf' = take (Z.to_nat n') raw ++ drop (Z.to_nat n') buf /\
        length (take (Z.to_nat n') raw) = Z.to_nat n' /\
        length buf' = length buf
    | None => n' = 0 /\ buf' = buf
    end.
Proof.
  intros He Hti Hcn Hn0 Hn c st value raw raw_len Hok.
  subst c st value raw raw_len.
  destruct (OCI_EnqueueGetRelativeMsgID N (Some p) (Some buf) (Some n) s)
    as [[[[b ob] on] s']|] eqn:Hrun.
  - unfold OCI_EnqueueGetRelativeMsgID, enq_con, OCI_CALL2, OCI_RESULT, direct, copy_into in Hrun.
    cbv zeta in Hrun. minv; simplify_eq.
    all: match goal with H : nat_handle _ _ _ = _ |- _ => rewrite H end.
    + match goal with
      | |- context [nat_bytes N ?tr ?c] => set (raw := nat_bytes N tr c) in *
      end.
      destruct (copy_count raw n Hn0) as (Hk & Hlen & Hr). cbv zeta in Hk, Hlen, Hr.
      set (k := if to_ub4 (Z.of_nat (length raw)) <? n
                then to_ub4 (Z.of_nat (length raw)) else n) in *.
      clearbody k raw.
      do 3 eexists. split; [reflexivity|].
      rewrite Hlen. repeat split; try assumption.
      rewrite length_app, length_drop, Hlen. lia.
    + do 3 eexists. split; [reflexivity|]. split; reflexivity.
  - exfalso.
    unfold OCI_EnqueueGetRelativeMsgID, enq_con, OCI_CALL2, OCI_RESULT, direct, copy_into in Hrun.
    cbv zeta in Hrun. minv.
    match goal with
    | H : (length (take _ ?r) <=? _)%nat = false |- _ =>
        destruct (copy_count r n Hn0) as (Hk & Hlen & Hr);
        cbv zeta in Hk, Hlen, Hr;
        rewrite Hlen in H; apply Nat.leb_gt in H;
        set (k := if to_ub4 (Z.of_nat (length r)) <? n
                  then to_ub4 (Z.of_nat (length r)) else n) in *;
        clearbody k; lia
    end.
Qed.

(** A type descriptor on connection 3, and an enqueue object at address 1. *)
Definition ti_sample : OCI_TypeInfo := mkTypeInfo (Some 3%positive) (Some 8%positive) 5.

Definition e_sample : OCI_Enqueue := mkEnqueue (Some ti_sample) [81] (Some 7%positive).

Definition s_enq : State :=
  mkState true ∅ ∅ {[ 1%positive := e_sample ]} [].

Lemma OCI_EnqueueGetRelativeMsgID_copies_witness :
  exists s' buf' n',
    OCI_EnqueueGetRelativeMsgID N_ok (Some 1%positive) (Some [0; 0; 0; 0; 0]) (Some 2) s_enq =
      Some ((true, Some buf', Some n'), s').
Proof.
  destruct (OCI_EnqueueGetRelativeMsgID_copies N_ok 1%positive e_sample ti_sample
              3%positive s_enq [0; 0; 0; 0; 0] 2)
    as (s' & buf' & n' & Hrun & _);
    [reflexivity | reflexivity | reflexivity | lia | cbn; lia | reflexivity |].
  exists s', buf', n'. exact Hrun.
Defined.

(** ** OCI_RefToText *)

Lemma to_int_small z : 0 <= z < 2 ^ 31 -> to_int z = z.
Proof.
  intros Hz. unfold to_int.
  rewrite Z.mod_small by lia.
  destruct (Z.ltb_spec z (2 ^ 31)); lia.
Qed.

(** The block after [str[0] = 0], a native write of [hex] at its start and
    [str[k] = 0]. *)
Lemma terminated_block (buf hex : list Z) (k : nat) :
  (length hex <= length buf)%nat -> (k < length buf)%nat ->
  let b0 := <[0%nat := 0]> buf in
  let b' := <[k := 0]> (hex ++ drop (length hex) b0) in
  b0 !! 0%nat = Some 0 /\ b' !! k = Some 0 /\ length b' = length buf /\
  (hex = [] -> b' !! 0%nat = Some 0).
Proof.
  intros Hh Hk b0 b'.
  assert (Hl0 : length b0 = length buf) by (subst b0; apply length_insert).
  assert (Hl1 : length (hex ++ drop (length hex) b0) = length buf).
  { rewrite length_app, length_drop, Hl0. lia. }
  assert (Hb0 : b0 !! 0%nat = Some 0).
  { subst b0. apply list_lookup_insert_eq. lia. }
  split; [exact Hb0|]. split; [|split].
  - subst b'. apply list_lookup_insert_eq. lia.
  - subst b'. rewrite length_insert. exact Hl1.
  - intros ->. subst b'. cbn [app length]. rewrite drop_0.
    destruct k as [|k].
    + apply list_lookup_insert_eq. lia.
    + rewrite list_lookup_insert_ne by lia. exact Hb0.
Qed.

(** C10: for a non-NULL reference with a connection and a block of more
    than [size] characters, OCI_RefToText returns, with the result of the
    translator; the block it hands to the native conversion already starts
    with 0; on return the block holds what the conversion wrote followed by
    a 0 at the converted length, so it is null-terminated whatever the
    outcome; and when the conversion fails without writing, the block holds
    the empty string.  The native conversion is taken to stay within the
    size it is given. *)
Theorem OCI_RefToText_terminated N p r cn s size buf :
  refs s !! p = Some r -> ref_con r = Some cn ->
  0 <= size -> size * Z.pos (sizeof_mtext N) < 2 ^ 31 ->
  size < Z.of_nat (length buf) ->
  let sz := Z.pos (sizeof_mtext N) in
  let buf0 := <[0%nat := 0]> buf in
  let c := OCIRefToHex (ref_handle r) buf0 (size * sz) in
  let st := nat_status N (trace s) c in
  let hex := nat_bytes N (trace s) c in
  let osize := nat_ub4 N (trace s) c in
  (length hex <= length buf)%nat -> 0 <= osize <= size * sz ->
  (call2_ok N st = false -> hex = []) ->
  exists s' buf',
    OCI_RefToText N (Some p) size (Some buf) s = Some ((call2_ok N st, Some buf'), s') /\
    buf0 !! 0%nat = Some 0 /\
    In (EvCall2 c st) (trace s') /\
    buf' = <[Z.to_nat (osize / sz) := 0]> (hex ++ drop (length hex) buf0) /\
    buf' !! Z.to_nat (osize / sz) = Some 0 /\
    length buf' = length buf /\
    (call2_ok N st = false -> buf' !! 0%nat = Some 0).
Proof.
  intros Hr Hcn Hs0 Hs1 Hcap sz buf0 c st hex osize Hhex Hos Hfail.
  assert (Hsz : 0 < sz) by (subst sz; lia).
  assert (Hi : to_int (size * sz) = size * sz) by (apply to_int_small; lia).
  assert (Ho : to_int osize = osize) by (apply to_int_small; lia).
  assert (Hk : 0 <= osize / sz <= size).
  { split; [apply Z.div_pos; lia|].
    apply Z.div_le_upper_bound; lia. }
  assert (Hkn : (Z.to_nat (osize / sz) < length buf)%nat) by lia.
  destruct (terminated_block buf hex (Z.to_nat (osize / sz)) Hhex Hkn)
    as (Hb0 & Hbk & Hlen & Hempty).
  cbv zeta in Hb0, Hbk, Hlen, Hempty. fold buf0 in Hb0, Hbk, Hlen, Hempty.
  assert (Hl0 : length buf0 = length buf) by (subst buf0; apply length_insert).
  subst buf0 c st hex osize sz.
  destruct (OCI_RefToText N (Some p) size (Some buf) s) as [[[b ob] s']|] eqn:Hrun.
  - unfold OCI_RefToText, OCI_CALL2, OCI_RESULT, write_at, copy_into in Hrun.
    cbv zeta in Hrun. rewrite Hi in Hrun.
    change (Z.to_nat 0) with 0%nat in Hrun.
    minv.
    all: rewrite Ho.
    all: do 2 eexists;
      match goal with H : call2_ok _ _ = _ |- _ => rewrite H end;
      (split; [reflexivity|]).
    all: repeat split; auto; cbn [trace In]; auto.
    all: try discriminate.
    all: intros _; apply Hempty, Hfail; assumption.
  - exfalso.
    unfold OCI_RefToText, OCI_CALL2, OCI_RESULT, write_at, copy_into in Hrun.
    cbv zeta in Hrun. rewrite Hi in Hrun.
    change (Z.to_nat 0) with 0%nat in Hrun.
    minv.
    all: rewrite ?Ho in *.
    all: rewrite ?andb_false_iff, ?Z.leb_gt, ?Z.ltb_ge, ?Z.ltb_lt, ?Nat.leb_gt in *.
    all: rewrite ?length_app, ?length_drop, ?Hl0 in *.
    all: lia.
Qed.

(** A library whose hex conversion fails, writes nothing and leaves the size
    as it was given. *)
Definition N_hex_fails : Native :=
  mkNative (fun _ c => match c with OCIRefToHex _ _ _ => -1 | _ => 0 end)
           (nat_handle N_ok) (nat_bool N_ok)
           (fun _ c => match c with OCIRefToHex _ _ osize => osize | _ => 4 end)
           (fun _ c => match c with OCIRefToHex _ _ _ => [] | _ => [1; 2; 3] end)
           (Z.eqb 0) (Z.eqb 0) 1%positive
           (fun _ => true)
           0 (-1) 1 2 2 3
           (object_init N_ok) (object_init_left N_ok).

Lemma OCI_RefToText_terminated_witness :
  exists s' buf',
    OCI_RefToText N_hex_fails (Some 1%positive) 4 (Some [1; 1; 1; 1; 1]) s_pinned =
      Some ((false, Some buf'), s') /\
    buf' !! 0%nat = Some 0.
Proof.
  destruct (OCI_RefToText_terminated N_hex_fails 1%positive r_pinned 3%positive
              s_pinned 4 [1; 1; 1; 1; 1])
    as (s' & buf' & Hrun & _ & _ & _ & _ & _ & Hempty);
    [reflexivity | reflexivity | lia | reflexivity | reflexivity
    | cbn; lia | cbn; lia | reflexivity |].
  exists s', buf'. split; [exact Hrun|]. apply Hempty. reflexivity.
Defined.

(** ** The result of the operations that go through the translator *)

(** The only errors raised are those of the translator: no argument check
    rejected the call. *)
Definition checks_passed (delta : list Event) : Prop :=
  forall e, In (EvException e) delta -> exists cn, e = ExcOCI cn.

(** The boolean result [b] of a run from [s] to [s'] is TRUE exactly when
    the argument checks passed and every native call made through
    OCI_CALL2 during the run reported success. *)
Definition reports_success (N : Native) (b : bool) (s s' : State) : Prop :=
  exists delta,
    trace s' = delta ++ trace s /\
    (b = true <-> checks_passed delta /\ wrapped_ok N delta).

Ltac refute_checks :=
  match goal with
  | Hc : checks_passed _ |- _ =>
      let cn := fresh "cn" in
      let E := fresh "E" in
      edestruct Hc as [cn E]; [cbn [In app]; eauto 12 | discriminate E]
  end.

Ltac refute_ok :=
  match goal with
  | Hf : call2_ok ?N ?st = false, Hw : wrapped_ok _ _ |- _ =>
      assert (call2_ok N st = true)
        by (eapply Hw; cbn [In app]; eauto 12);
      congruence
  end.

Ltac solve_reports :=
  eexists; split; [solve_delta|];
  split;
  [ intros ?; first [ discriminate
                    | split; [ intros ? ?; in_cases
                             | intros ? ? ?; in_cases ] ]
  | intros [? ?]; first [ reflexivity | refute_checks | refute_ok ] ].

Lemma OCI_RefUnpin_reports N p s b s' :
  OCI_RefUnpin N (Some p) s = Some (b, s') -> reports_success N b s s'.
Proof.
  intros Hrun.
  unfold OCI_RefUnpin, OCI_ObjectFree, OCI_CALL2, OCI_RESULT, direct, null_pointer in Hrun.
  cbv zeta in Hrun. minv.
  all: solve_reports.
Qed.

Lemma OCI_RefAssign_reports N ref src s b s' :
  OCI_RefAssign N ref src s = Some (b, s') -> reports_success N b s s'.
Proof.
  intros Hrun.
  unfold OCI_RefAssign, OCI_ObjectFree, OCI_CALL2, OCI_RESULT, direct, null_pointer in Hrun.
  cbv zeta in Hrun. minv.
  all: solve_reports.
Qed.

Lemma OCI_RefToText_reports N ref size str s b str' s' :
  OCI_RefToText N ref size str s = Some ((b, str'), s') -> reports_success N b s s'.
Proof.
  intros Hrun.
  unfold OCI_RefToText, OCI_CALL2, OCI_RESULT, null_pointer, write_at, copy_into in Hrun.
  cbv zeta in Hrun. minv.
  all: solve_reports.
Qed.

Lemma OCI_EnqueuePut_reports N enq msg s b s' :
  OCI_EnqueuePut N enq msg s = Some (b, s') -> reports_success N b s s'.
Proof.
  intros Hrun.
  unfold OCI_EnqueuePut, OCI_CALL2, OCI_RESULT, null_pointer in Hrun.
  cbv zeta in Hrun. minv.
  all: solve_reports.
Qed.

Lemma OCI_EnqueueSetVisibility_reports N enq v s b s' :
  OCI_EnqueueSetVisibility N enq v s = Some (b, s') -> reports_success N b s s'.
Proof.
  intros Hrun.
  unfold OCI_EnqueueSetVisibility, OCI_CHECK_ENUM_VALUE, enq_con, OCI_CALL2,
    OCI_RESULT, null_pointer in Hrun.
  cbv zeta in Hrun. minv.
  all: solve_reports.
Qed.

Lemma OCI_EnqueueSetSequenceDeviation_reports N enq v s b s' :
  OCI_EnqueueSetSequenceDeviation N enq v s = Some (b, s') -> reports_success N b s s'.
Proof.
  intros Hrun.
  unfold OCI_EnqueueSetSequenceDeviation, OCI_CHECK_ENUM_VALUE, enq_con, OCI_CALL2,
    OCI_RESULT, null_pointer in Hrun.
  cbv zeta in Hrun. minv.
  all: solve_reports.
Qed.

Lemma OCI_EnqueueGetRelativeMsgID_reports N enq id len s b id' len' s' :
  OCI_EnqueueGetRelativeMsgID N enq id len s = Some ((b, id', len'), s') ->
  reports_success N b s s'.
Proof.
  intros Hrun.
  unfold OCI_EnqueueGetRelativeMsgID, enq_con, OCI_CALL2, OCI_RESULT, direct,
    null_pointer, copy_into in Hrun.
  cbv zeta in Hrun. minv.
  all: solve_reports.
Qed.

Lemma OCI_EnqueueSetRelativeMsgID_reports N enq id len s b s' :
  OCI_EnqueueSetRelativeMsgID N enq id len s = Some (b, s') ->
  reports_success N b s s'.
Proof.
  intros Hrun.
  unfold OCI_EnqueueSetRelativeMsgID, enq_con, OCI_CALL2, OCI_RESULT, null_pointer in Hrun.
  cbv zeta in Hrun. minv.
  all: solve_reports.
Qed.

(** OCI_RefPin: the result is that of its own pin call and of
    OCI_ObjectInit, taken in the state [s1] left by the preliminary
    OCI_RefUnpin. *)
Lemma OCI_RefPin_result N p s b s' :
  OCI_RefPin N (Some p) s = Some (b, s') ->
  exists res1 s1 r1,
    OCI_RefUnpin N (Some p) s = Some (res1, s1) /\ refs s1 !! p = Some r1 /\
    let c := OCIObjectPin (ref_handle r1) in
    let st := nat_status N (trace s1) c in
    (b = true <->
     call2_ok N st = true /\
     is_Some (object_init N (EvCall2 c st :: trace s1) (nat_handle N (trace s1) c))).
Proof.
  intros Hrun.
  unfold OCI_RefPin, OCI_ObjectInit, OCI_CALL2 in Hrun.
  cbv zeta in Hrun. minv.
  all: do 3 eexists; (split; [eassumption|]); (split; [eassumption|]); cbv zeta.
  all: split; [intros ?|intros [? [? ?]]]; try discriminate; try congruence; eauto.
Qed.

(** C5, as the code has it: OCI_RefUnpin, OCI_RefAssign, OCI_RefToText,
    OCI_EnqueuePut, OCI_EnqueueSetVisibility,
    OCI_EnqueueSetSequenceDeviation, OCI_EnqueueGetRelativeMsgID and
    OCI_EnqueueSetRelativeMsgID return TRUE exactly when their argument
    checks passed and every native call they made through OCI_CALL2
    reported success; OCI_RefPin returns TRUE exactly when its own
    OCIObjectPin call reported success and OCI_ObjectInit returned an
    object.  The results are booleans: no native status reaches the
    caller. *)
Theorem translator_result N s :
  (forall p b s', OCI_RefUnpin N (Some p) s = Some (b, s') -> reports_success N b s s') /\
  (forall ref src b s',
     OCI_RefAssign N ref src s = Some (b, s') -> reports_success N b s s') /\
  (forall ref size str b str' s',
     OCI_RefToText N ref size str s = Some ((b, str'), s') -> reports_success N b s s') /\
  (forall enq msg b s',
     OCI_EnqueuePut N enq msg s = Some (b, s') -> reports_success N b s s') /\
  (forall enq v b s',
     OCI_EnqueueSetVisibility N enq v s = Some (b, s') -> reports_success N b s s') /\
  (forall enq v b s',
     OCI_EnqueueSetSequenceDeviation N enq v s = Some (b, s') ->
     reports_success N b s s') /\
  (forall enq id len b id' len' s',
     OCI_EnqueueGetRelativeMsgID N enq id len s = Some ((b, id', len'), s') ->
     reports_success N b s s') /\
  (forall enq id len b s',
     OCI_EnqueueSetRelativeMsgID N enq id len s = Some (b, s') ->
     reports_success N b s s') /\
  (forall p b s',
     OCI_RefPin N (Some p) s = Some (b, s') ->
     exists res1 s1 r1,
       OCI_RefUnpin N (Some p) s = Some (res1, s1) /\ refs s1 !! p = Some r1 /\
       let c := OCIObjectPin (ref_handle r1) in
       let st := nat_status N (trace s1) c in
       (b = true <->
        call2_ok N st = true /\
        is_Some (object_init N (EvCall2 c st :: trace s1) (nat_handle N (trace s1) c)))).
Proof.
  repeat split; intros.
  - eapply OCI_RefUnpin_reports; eauto.
  - eapply OCI_RefAssign_reports; eauto.
  - eapply OCI_RefToText_reports; eauto.
  - eapply OCI_EnqueuePut_reports; eauto.
  - eapply OCI_EnqueueSetVisibility_reports; eauto.
  - eapply OCI_EnqueueSetSequenceDeviation_reports; eauto.
  - eapply OCI_EnqueueGetRelativeMsgID_reports; eauto.
  - eapply OCI_EnqueueSetRelativeMsgID_reports; eauto.
  - eapply OCI_RefPin_result; eauto.
Qed.

Lemma translator_result_witness :
  exists b s',
    OCI_RefUnpin N_unpin_fails (Some 1%positive) s_pinned = Some (b, s') /\
    reports_success N_unpin_fails b s_pinned s'.
Proof.
  destruct (OCI_RefUnpin N_unpin_fails (Some 1%positive) s_pinned)
    as [[b s']|] eqn:Hrun; [|discriminate Hrun].
  exists b, s'. split; [reflexivity|].
  exact (proj1 (translator_result N_unpin_fails s_pinned) 1%positive b s' Hrun).
Defined.

(** C5 as stated fails for OCI_RefPin: the OCIObjectUnpin call made through
    OCI_CALL2 by the preliminary OCI_RefUnpin reports an error, and
    OCI_RefPin still returns TRUE. *)
Lemma OCI_RefPin_unpin_failure_unreported :
  exists s' delta,
    OCI_RefPin N_unpin_fails (Some 1%positive) s_pinned = Some (true, s') /\
    trace s' = delta ++ trace s_pinned /\
    In (EvCall2 (OCIObjectUnpin (Some 5%positive)) (-1)) delta /\
    call2_ok N_unpin_fails (-1) = false /\
    ~ wrapped_ok N_unpin_fails delta.
Proof.
  eexists. eexists. split; [vm_compute; reflexivity|].
  split; [cbn [trace s_pinned]; symmetry; apply app_nil_r|].
  assert (Hin : In (EvCall2 (OCIObjectUnpin (Some 5%positive)) (-1))
                  [EvCall2 (OCIObjectPin (Some 2%positive)) 0; EvResult true;
                   EvMemFree OCI_IPC_OBJECT 1%positive;
                   EvObjectFree 1%positive
                     (mkObject (Some 5%positive) OCI_OBJECT_FETCHED_DIRTY NULL);
                   EvException (ExcOCI 3%positive);
                   EvCall2 (OCIObjectUnpin (Some 5%positive)) (-1)])
    by (cbn [In]; auto 10).
  split; [exact Hin|]. split; [reflexivity|].
  intros Hw. specialize (Hw _ _ Hin). discriminate Hw.
Qed.

(** * The C++ layer (ocilib.hpp)

    ocilib.hpp declares the public classes; they all derive from
    HandleHolder, whose definition is in ocilib_core.hpp and whose code is
    in ocilib_impl.hpp.  Neither file is at hand. *)

Module HandleHolder.

(** Modelled from the spec: the reference-counted handle behind a proxy
    (ocilib_core.hpp and ocilib_impl.hpp are not among the sources).
    Section 3: a Handle wraps one native resource pointer and has a release callback, a
    nullable parent reference and a share counter. *)
Record Handle := mkHandle {
  raw : ptr;
  release : nat;       (* which release callback the resource kind uses *)
  parent : ptr;
  share : nat
}.

(** The handles that are alive and the log of release-callback invocations,
    most recent first: the callback, and the native pointer it was given. *)
Record Store := mkStore {
  handles : gmap positive Handle;
  released : list (nat * ptr)
}.

(** A proxy object holds a pointer to a Handle. *)
Definition Proxy := addr.

(** Modelled from the spec: section 4.1, construction from a raw native
    handle takes ownership (share count = 1). *)
Definition construct (p : ptr) (cb : nat) (par : ptr) (st : Store) : Proxy * Store :=
  let a := fresh (dom (handles st)) in
  (a, mkStore (<[a := mkHandle p cb par 1]> (handles st)) (released st)).

(** Modelled from the spec: section 4.1, copy construction/assignment
    increments the share count and shares the Handle.  Copying a proxy
    whose Handle is gone is a misuse. *)
Definition copy (px : Proxy) (st : Store) : option (Proxy * Store) :=
  match handles st !! px with
  | Some h =>
      Some (px, mkStore (<[px := mkHandle (raw h) (release h) (parent h) (S (share h))]>
                           (handles st))
                        (released st))
  | None => None
  end.

(** Modelled from the spec: section 4.1, destruction decrements the share
    count and, on reaching zero, invokes the release callback associated
    with the resource kind and detaches the Handle. *)
Definition destroy (px : Proxy) (st : Store) : option Store :=
  match handles st !! px with
  | Some h =>
      match share h with
      | O => None
      | S O =>
          Some (mkStore (delete px (handles st))
                        ((release h, raw h) :: released st))
      | S k =>
          Some (mkStore (<[px := mkHandle (raw h) (release h) (parent h) k]> (handles st))
                        (released st))
      end
  | None => None
  end.

(** [n] further copies of a proxy. *)
Fixpoint copies (n : nat) (px : Proxy) (st : Store) : option Store :=
  match n with
  | O => Some st
  | S n' =>
      match copy px st with
      | Some (_, st') => copies n' px st'
      | None => None
      end
  end.

(** [n] proxies on the same Handle go out of scope. *)
Fixpoint destroys (n : nat) (px : Proxy) (st : Store) : option Store :=
  match n with
  | O => Some st
  | S n' =>
      match destroy px st with
      | Some st' => destroys n' px st'
      | None => None
      end
  end.

Lemma copies_share n : forall px st h,
  handles st !! px = Some h ->
  copies n px st =
    Some (mkStore (<[px := mkHandle (raw h) (release h) (parent h) (n + share h)]>
                     (handles st))
                  (released st)).
Proof.
  induction n as [|n IH]; intros px st h Hh; cbn [copies].
  - f_equal. destruct st as [hs rl]; cbn in *. f_equal.
    rewrite insert_id; [reflexivity|]. rewrite Hh. now destruct h.
  - unfold copy. rewrite Hh.
    rewrite (IH px _ (mkHandle (raw h) (release h) (parent h) (S (share h))));
      cbn [handles released raw release parent share].
    + rewrite insert_insert_eq. do 4 f_equal. lia.
    + apply lookup_insert_eq.
Qed.

(** Destroying all but the last of [S n] proxies releases nothing. *)
Lemma destroys_keep n : forall px st h,
  handles st !! px = Some h -> share h = S n ->
  destroys n px st =
    Some (mkStore (<[px := mkHandle (raw h) (release h) (parent h) 1]> (handles st))
                  (released st)).
Proof.
  induction n as [|n IH]; intros px st h Hh Hs; cbn [destroys].
  - f_equal. destruct st as [hs rl]; cbn in *. f_equal.
    rewrite insert_id; [reflexivity|]. rewrite Hh, <- Hs. now destruct h.
  - unfold destroy. rewrite Hh, Hs.
    rewrite (IH px _ (mkHandle (raw h) (release h) (parent h) (S n)));
      cbn [handles released raw release parent share].
    + now rewrite insert_insert_eq.
    + apply lookup_insert_eq.
    + reflexivity.
Qed.

(** Any life of the proxies of one Handle: a list of copies and
    destructions. *)
Inductive op := Copy | Destroy.

Fixpoint run_ops (ops : list op) (px : Proxy) (st : Store) : option Store :=
  match ops with
  | [] => Some st
  | Copy :: rest =>
      match copy px st with
      | Some (_, st') => run_ops rest px st'
      | None => None
      end
  | Destroy :: rest =>
      match destroy px st with
      | Some st' => run_ops rest px st'
      | None => None
      end
  end.

(** Whatever the proxies of a live Handle do, its release callback runs at
    most once, and when it has run the Handle is gone. *)
Lemma release_at_most_once ops : forall px st h st',
  handles st !! px = Some h -> share h <> O ->
  run_ops ops px st = Some st' ->
  (released st' = released st /\ is_Some (handles st' !! px)) \/
  (released st' = (release h, raw h) :: released st /\ handles st' !! px = None).
Proof.
  induction ops as [|o rest IH]; intros px st h st' Hh Hs Hrun; cbn [run_ops] in Hrun.
  - injection Hrun as <-. left. split; [reflexivity|eauto].
  - destruct o.
    + unfold copy in Hrun. rewrite Hh in Hrun.
      eapply IH in Hrun; [|apply lookup_insert_eq|cbn [share]; lia].
      exact Hrun.
    + unfold destroy in Hrun. rewrite Hh in Hrun.
      destruct (share h) as [|[|k]] eqn:Hk; [discriminate| |].
      * destruct rest as [|o rest]; cbn [run_ops] in Hrun.
        -- injection Hrun as <-. right. cbn [released handles].
           split; [reflexivity|apply lookup_delete_eq].
        -- destruct o; unfold copy, destroy in Hrun; cbn [handles] in Hrun;
             rewrite lookup_delete_eq in Hrun; discriminate.
      * eapply IH in Hrun; [|apply lookup_insert_eq|cbn [share]; lia].
        exact Hrun.
Qed.

(** C1: a proxy is constructed on a native handle and copied [n] times.
    When the [n + 1] proxies are destroyed, the first [n] destructions
    invoke no release callback, and the last one invokes the callback of
    the handle, once, on the native pointer; the Handle is then gone, so
    neither a further destruction nor a further copy can reach the callback
    again.  More generally, whatever list of copies and destructions the
    proxies of the handle go through, the callback has run at most once. *)
Theorem release_exactly_once (p : ptr) (cb : nat) (par : ptr) (n : nat) (st : Store) :
  let px := fst (construct p cb par st) in
  let st0 := snd (construct p cb par st) in
  (exists st1 st2 st3,
    copies n px st0 = Some st1 /\
    destroys n px st1 = Some st2 /\
    destroy px st2 = Some st3 /\
    released st1 = released st /\
    released st2 = released st /\
    released st3 = (cb, p) :: released st /\
    handles st3 !! px = None /\
    destroy px st3 = None /\
    copy px st3 = None) /\
  (forall ops st',
     run_ops ops px st0 = Some st' ->
     released st' = released st \/ released st' = (cb, p) :: released st).
Proof.
  intros px st0.
  assert (H0 : handles st0 !! px = Some (mkHandle p cb par 1)).
  { subst px st0. unfold construct. cbn [fst snd handles]. apply lookup_insert_eq. }
  pose proof (copies_share n px st0 _ H0) as Hc.
  cbn [raw release parent share] in Hc.
  set (st1 := mkStore (<[px := mkHandle p cb par (n + 1)]> (handles st0)) (released st0)) in *.
  assert (H1 : handles st1 !! px = Some (mkHandle p cb par (n + 1)))
    by (subst st1; cbn [handles]; apply lookup_insert_eq).
  pose proof (destroys_keep n px st1 _ H1 ltac:(cbn [share]; lia)) as Hd.
  cbn [raw release parent share] in Hd.
  set (st2 := mkStore (<[px := mkHandle p cb par 1]> (handles st1)) (released st1)) in *.
  assert (H2 : handles st2 !! px = Some (mkHandle p cb par 1))
    by (subst st2; cbn [handles]; apply lookup_insert_eq).
  split.
  - exists st1, st2, (mkStore (delete px (handles st2)) ((cb, p) :: released st2)).
    repeat split; auto.
    + unfold destroy. rewrite H2. reflexivity.
    + cbn [handles]. apply lookup_delete_eq.
    + unfold destroy. cbn [handles]. now rewrite lookup_delete_eq.
    + unfold copy. cbn [handles]. now rewrite lookup_delete_eq.
  - intros ops st' Hrun.
    destruct (release_at_most_once ops px st0 _ st' H0 ltac:(cbn [share]; lia) Hrun)
      as [[Hr _]|[Hr _]]; [left|right]; exact Hr.
Qed.

End HandleHolder.

Module Exception.

(** Modelled from the spec: the OCI_Error descriptor that the C layer fills
    in when a call fails (error.c and exception.c are not among the sources).
    Section 6: message text, native error code, binding error code,
    associated connection/statement references and, for bulk operations,
    the offending row index.  ocilib.hpp, GetRow: row indexes start at 1,
    and 0 is returned when the error is not related to array DML; so the
    descriptor holds no row unless the error comes from array DML. *)
Record OCI_Error := mkError {
  err_text : list Z;
  err_type : Z;
  err_ocode : Z;
  err_icode : Z;
  err_stmt : ptr;
  err_con : ptr;
  err_row : option positive
}.

(** class Exception (ocilib.hpp, lines 272-385): a holder of the
    OCI_Error handle, with the text kept for what(). *)
Record Exception := mkException {
  handle : OCI_Error;
  _what : list Z
}.

Definition GetType (ex : Exception) : Z := err_type (handle ex).

(** A C++ call either returns or throws. *)
Inductive Outcome (A : Type) :=
| Returned (a : A)
| Thrown (ex : Exception).

Arguments Returned {A} a.
Arguments Thrown {A} ex.

(** The error raised last among the events of a call, most recent first. *)
Fixpoint last_exception (delta : list Event) : option exc_t :=
  match delta with
  | [] => None
  | EvException e :: _ => Some e
  | _ :: rest => last_exception rest
  end.

Section Check.

(** The descriptor the C layer builds for an error it raises. *)
Variable describe : exc_t -> OCI_Error.

(** Modelled from the spec: Check(), the friend of class Exception called
    after every C API call by the C++ methods (ocilib_impl.hpp is not
    among the sources).  Section 4.2: after the call returns, inspect the
    error descriptor; if an error condition is set, construct a structured
    exception and throw it; otherwise fall through. *)
Definition Check {A} (delta : list Event) (result : A) : Outcome A :=
  match last_exception delta with
  | Some e => Thrown (mkException (describe e) (err_text (describe e)))
  | None => Returned result
  end.

Lemma last_exception_In delta e :
  last_exception delta = Some e -> In (EvException e) delta.
Proof.
  induction delta as [|ev rest IH]; cbn [last_exception]; [discriminate|].
  destruct ev; try (intros H; right; exact (IH H)).
  intros [= ->]. left. reflexivity.
Qed.



(** Without an error the call falls through. *)
Lemma no_failure_returns {A} (delta : list Event) (result : A) :
  (forall e, ~ In (EvException e) delta) -> Check delta result = Returned result.
Proof.
  intros Hno. unfold Check.
  destruct (last_exception delta) as [e|] eqn:He; [|reflexivity].
  exfalso. exact (Hno e (last_exception_In _ _ He)).
Qed.

End Check.

End Exception.






(** ** The operations that keep the invariant *)

Lemma OCI_RefUnpin_refs N ref s b s' :
  OCI_RefUnpin N ref s = Some (b, s') ->
  match ref with
  | Some p =>
      exists r, refs s !! p = Some r /\
        refs s' = <[p := set_ref_obj NULL (set_ref_pinned false r)]> (refs s)
  | None => refs s' = refs s
  end.
Proof.
  destruct ref as [p|]; intros Hrun.
  - destruct (refs s !! p) as [r|] eqn:Hr.
    + exists r. split; [reflexivity|].
      destruct (OCI_RefUnpin_Some _ _ _ _ _ _ Hr Hrun) as (? & _ & _ & _ & H & _).
      exact H.
    + unfold OCI_RefUnpin in Hrun. minv.
  - unfold OCI_RefUnpin in Hrun. minv. reflexivity.
Qed.

Ltac consistent_here :=
  unfold ref_consistent;
  cbn [ref_obj ref_pinned set_ref_obj set_ref_pinned set_ref_handle set_ref_nty
       implb negb ptr_eqb NULL];
  try match goal with
      | H : ref_obj _ = Some _ |- _ => rewrite H
      end;
  reflexivity.

Ltac keep_invariant Hinv :=
  let q := fresh "q" in
  let r0 := fresh "r0" in
  let Hq := fresh "Hq" in
  intros q r0 Hq; cbn [refs] in Hq; rewrite ?insert_insert_eq in Hq;
  repeat match type of Hq with
    | <[?p := _]> _ !! q = Some _ =>
        apply lookup_insert_Some in Hq as [[_ <-]|[_ Hq]]; [consistent_here|]
    | delete ?p _ !! q = Some _ =>
        apply lookup_delete_Some in Hq as [_ Hq]
    end;
  exact (Hinv q r0 Hq).

Ltac use_unpin_refs :=
  match goal with
  | H : OCI_RefUnpin _ (Some _) _ = Some (_, _) |- _ =>
      let r := fresh "r" in
      let Hr := fresh "Hr" in
      let Hrefs := fresh "Hrefs" in
      apply OCI_RefUnpin_refs in H as (r & Hr & Hrefs);
      rewrite ?Hrefs in *
  end.

(** OCI_RefUnpin, OCI_RefPin, OCI_RefSetNull, OCI_RefGetObject and
    OCI_RefFree keep [pinned_has_obj]. *)
Lemma pinned_has_obj_kept N s :
  pinned_has_obj s ->
  (forall ref b s', OCI_RefUnpin N ref s = Some (b, s') -> pinned_has_obj s') /\
  (forall ref b s', OCI_RefPin N ref s = Some (b, s') -> pinned_has_obj s') /\
  (forall ref b s', OCI_RefSetNull N ref s = Some (b, s') -> pinned_has_obj s') /\
  (forall ref o s', OCI_RefGetObject N ref s = Some (o, s') -> pinned_has_obj s') /\
  (forall ref b s', OCI_RefFree N ref s = Some (b, s') -> pinned_has_obj s').
Proof.
  intros Hinv. repeat split.
  - intros ref b s1 Hrun. apply OCI_RefUnpin_refs in Hrun.
    destruct ref as [p|].
    + destruct Hrun as (r & Hr & Hrefs). unfold pinned_has_obj. rewrite Hrefs.
      keep_invariant Hinv.
    + unfold pinned_has_obj. rewrite Hrun. exact Hinv.
  - intros ref b s1 Hrun.
    unfold OCI_RefPin, OCI_ObjectInit, OCI_CALL2 in Hrun. cbv zeta in Hrun.
    minv; try exact Hinv.
    all: use_unpin_refs; minv.
    all: unfold pinned_has_obj; rewrite ?Hrefs; keep_invariant Hinv.
  - intros ref b s' Hrun.
    unfold OCI_RefSetNull, OCI_ObjectFree, OCI_RESULT, direct, null_pointer in Hrun.
    cbv zeta in Hrun. minv; try exact Hinv.
    all: use_unpin_refs; minv.
    all: unfold pinned_has_obj; rewrite ?Hrefs; keep_invariant Hinv.
  - intros ref o s' Hrun.
    unfold OCI_RefGetObject, OCI_RefIsNull, OCI_RefPin, OCI_ObjectInit, OCI_CALL2,
      OCI_RESULT, direct, null_pointer in Hrun.
    cbv zeta in Hrun. minv; try exact Hinv.
    all: use_unpin_refs; minv.
    all: unfold pinned_has_obj; rewrite ?Hrefs; keep_invariant Hinv.
  - intros ref b s' Hrun.
    unfold OCI_RefFree, OCI_RESULT, direct, null_pointer in Hrun.
    cbv zeta in Hrun. minv; try exact Hinv.
    all: use_unpin_refs; minv.
    all: unfold pinned_has_obj; rewrite ?Hrefs; keep_invariant Hinv.
Qed.


(** * Further properties of ref.c *)

(** ** Unpinning twice *)

(** X1: once OCI_RefUnpin has returned, a second OCI_RefUnpin on the same
    reference returns TRUE and changes nothing: no native call, no event, no
    store update. *)
Theorem OCI_RefUnpin_twice N p s b s' :
  OCI_RefUnpin N (Some p) s = Some (b, s') ->
  OCI_RefUnpin N (Some p) s' = Some (true, s').
Proof.
  intros Hrun. apply OCI_RefUnpin_refs in Hrun as (r & Hr & Hrefs).
  assert (Hp : refs s' !! p = Some (set_ref_obj NULL (set_ref_pinned false r)))
    by (rewrite Hrefs; apply lookup_insert_eq).
  destruct (OCI_RefUnpin N (Some p) s') as [[b2 s2]|] eqn:Hrun2.
  - unfold OCI_RefUnpin in Hrun2. minv. reflexivity.
  - unfold OCI_RefUnpin in Hrun2. minv.
Qed.

Lemma OCI_RefUnpin_twice_witness :
  exists b s',
    OCI_RefUnpin N_unpin_fails (Some 1%positive) s_pinned = Some (b, s') /\
    OCI_RefUnpin N_unpin_fails (Some 1%positive) s' = Some (true, s').
Proof.
  destruct (OCI_RefUnpin N_unpin_fails (Some 1%positive) s_pinned)
    as [[b s']|] eqn:Hrun; [|vm_compute in Hrun; discriminate Hrun].
  exists b, s'. split; [reflexivity|].
  exact (OCI_RefUnpin_twice N_unpin_fails 1%positive s_pinned b s' Hrun).
Defined.

(** ** Pinning *)

(** The events of the translator for one wrapped call on connection [cn]. *)
Definition call2_events (N : Native) (cn : addr) (c : NativeCall) (st : Z)
  : list Event :=
  (if call2_ok N st then [] else [EvException (ExcOCI cn)]) ++ [EvCall2 c st].

(** OCI_RefUnpin on a pinned reference, step by step. *)
Lemma OCI_RefUnpin_pinned N p r l o cn s :
  refs s !! p = Some r -> ref_pinned r = true -> ref_obj r = Some l ->
  objs s !! l = Some o -> ref_con r = Some cn ->
  let c := OCIObjectUnpin (obj_handle o) in
  let st := nat_status N (trace s) c in
  OCI_RefUnpin N (Some p) s =
    Some (call2_ok N st,
          mkState (loaded s)
            (<[p := set_ref_obj NULL (set_ref_pinned false r)]> (refs s))
            (delete l (objs s)) (enqs s)
            ([EvResult true; EvMemFree OCI_IPC_OBJECT l;
              EvObjectFree l (set_obj_hstate OCI_OBJECT_FETCHED_DIRTY o)]
             ++ call2_events N cn c st ++ trace s)).
Proof.
  intros Hr Hp Ho Hl Hc c st. subst c st. unfold call2_events.
  destruct (OCI_RefUnpin N (Some p) s) as [[b s']|] eqn:Hrun.
  - unfold OCI_RefUnpin, OCI_ObjectFree, OCI_CALL2, OCI_RESULT, direct, null_pointer in Hrun.
    cbv zeta in Hrun. minv.
    all: match goal with H : call2_ok _ _ = _ |- _ => rewrite H end.
    all: rewrite ?insert_insert_eq, ?delete_insert_eq; reflexivity.
  - exfalso.
    unfold OCI_RefUnpin, OCI_ObjectFree, OCI_CALL2, OCI_RESULT, direct, null_pointer in Hrun.
    cbv zeta in Hrun. minv.
Qed.

(** What OCI_RefPin has done when it returns TRUE. *)
Lemma OCI_RefPin_true N p s s1 :
  OCI_RefPin N (Some p) s = Some (true, s1) ->
  exists r0 l o cn,
    refs s !! p = Some r0 /\ ref_con r0 = Some cn /\
    refs s1 = <[p := set_ref_pinned true (set_ref_obj (Some l) (set_ref_pinned false r0))]>
                (refs s) /\
    objs s1 !! l = Some o.
Proof.
  intros Hrun.
  unfold OCI_RefPin, OCI_ObjectInit, OCI_CALL2 in Hrun. cbv zeta in Hrun.
  minv.
  all: use_unpin_refs; minv.
  do 4 eexists. split; [eassumption|]. split; [eassumption|].
  rewrite !insert_insert_eq. split; [reflexivity|]. apply lookup_insert_eq.
Qed.

(** X2: when OCI_RefPin returns TRUE, the reference is pinned on a live
    object and keeps its handle, state, connection and type; the
    OCI_RefUnpin that follows returns, makes exactly one wrapped native
    call, OCIObjectUnpin on that object's handle, gives the object's
    structure back and leaves the reference unpinned without object. *)
Theorem OCI_RefPin_then_unpin N p s s1 :
  OCI_RefPin N (Some p) s = Some (true, s1) ->
  exists r0 r1 l o,
    refs s !! p = Some r0 /\ refs s1 !! p = Some r1 /\
    ref_pinned r1 = true /\ ref_obj r1 = Some l /\ objs s1 !! l = Some o /\
    ref_handle r1 = ref_handle r0 /\ ref_hstate r1 = ref_hstate r0 /\
    ref_con r1 = ref_con r0 /\ ref_nty r1 = ref_nty r0 /\
    exists b s2 delta,
      OCI_RefUnpin N (Some p) s1 = Some (b, s2) /\
      trace s2 = delta ++ trace s1 /\
      (forall c st, In (EvCall2 c st) delta <->
                    c = OCIObjectUnpin (obj_handle o) /\
                    st = nat_status N (trace s1) c) /\
      objs s2 = delete l (objs s1) /\
      refs s2 !! p = Some (set_ref_obj NULL (set_ref_pinned false r1)).
Proof.
  intros Hrun.
  destruct (OCI_RefPin_true _ _ _ _ Hrun) as (r0 & l & o & cn & Hr0 & Hcn & Hrefs & Hl).
  set (r1 := set_ref_pinned true (set_ref_obj (Some l) (set_ref_pinned false r0))) in *.
  assert (Hr1 : refs s1 !! p = Some r1) by (rewrite Hrefs; apply lookup_insert_eq).
  exists r0, r1, l, o. repeat split; try assumption; try reflexivity.
  pose proof (OCI_RefUnpin_pinned N p r1 l o cn s1 Hr1 eq_refl eq_refl Hl Hcn) as Hu.
  cbv zeta in Hu.
  do 3 eexists. split; [exact Hu|]. cbn [trace objs refs].
  split; [rewrite <- app_assoc; reflexivity|].
  split; [|split; [reflexivity|apply lookup_insert_eq]].
  intros c st. unfold call2_events.
  destruct (call2_ok N _); cbn [In app]; intuition (try discriminate; simplify_eq; auto).
Qed.

Lemma OCI_RefPin_then_unpin_witness :
  exists s1 b s2,
    OCI_RefPin N_ok (Some 1%positive) s_pinned = Some (true, s1) /\
    OCI_RefUnpin N_ok (Some 1%positive) s1 = Some (b, s2).
Proof.
  assert (H : exists s1, OCI_RefPin N_ok (Some 1%positive) s_pinned = Some (true, s1))
    by (eexists; vm_compute; reflexivity).
  destruct H as [s1 H1].
  destruct (OCI_RefPin_then_unpin N_ok 1%positive s_pinned s1 H1)
    as (_ & _ & _ & _ & _ & _ & _ & _ & _ & _ & _ & _ & _ & b & s2 & _ & Hu & _).
  exists s1, b, s2. split; [exact H1|exact Hu].
Defined.

(** The facts of a returning OCI_RefUnpin, for a run that starts in a state
    written out in full. *)
Ltac use_unpin_conv :=
  match goal with
  | H : OCI_RefUnpin ?N (Some ?p) ?s0 = Some (?res, ?s1),
    Hr : refs _ !! ?p = Some ?r |- _ =>
      let d := fresh "du" in
      let Htr := fresh "Htr" in
      let Hld := fresh "Hld" in
      let Henq := fresh "Henq" in
      let Hrefs := fresh "Hrefs" in
      let Hres := fresh "Hres" in
      let Hnd := fresh "Hnd" in
      let Hdirty := fresh "Hdirty" in
      let Hobj := fresh "Hobj" in
      let Hnf := fresh "Hnf" in
      destruct (OCI_RefUnpin_Some N p r s0 res s1 Hr H)
        as (d & Htr & Hld & Henq & Hrefs & Hres & Hnd & Hdirty & Hobj & Hnf);
      clear H;
      rewrite ?Hrefs, ?Htr, ?Hld, ?Henq in *
  end.

(** ** OCI_RefGetObject *)

(** X3: OCI_RefGetObject on a live reference.  When the native library says
    the reference is null, NULL is returned and nothing is pinned: no
    wrapped native call is made and the stores are unchanged.  Otherwise
    the result of OCI_RefPin is recorded and the value returned is the
    object pointer left in the structure, whatever that result; the
    reference ends up pinned exactly when the pin succeeded, and the pointer
    returned is then that of a live object. *)
Theorem OCI_RefGetObject_result N p s o s' :
  OCI_RefGetObject N (Some p) s = Some (o, s') ->
  exists r r' delta,
    refs s !! p = Some r /\ refs s' !! p = Some r' /\
    trace s' = delta ++ trace s /\
    (nat_bool N (EvResult true :: trace s) (OCIRefIsNull (ref_handle r)) = true ->
     o = NULL /\ refs s' = refs s /\ objs s' = objs s /\
     forall c st, ~ In (EvCall2 c st) delta) /\
    (nat_bool N (EvResult true :: trace s) (OCIRefIsNull (ref_handle r)) = false ->
     o = ref_obj r' /\
     exists res delta',
       delta = EvResult res :: delta' /\
       (res = true <-> ref_pinned r' = true) /\
       (res = true -> exists l, o = Some l /\ is_Some (objs s' !! l))).
Proof.
  intros Hrun.
  unfold OCI_RefGetObject, OCI_RefIsNull, OCI_RefPin, OCI_ObjectInit, OCI_CALL2,
    OCI_RESULT, direct, null_pointer in Hrun.
  cbv zeta in Hrun. minv.
  all: try (use_unpin_conv; minv).
  all: do 3 eexists; (split; [eassumption|]).
  all: rewrite ?insert_insert_eq, ?lookup_insert_eq.
  all: (split; [first [reflexivity|eassumption]|]).
  all: (split; [solve_delta|]).
  all: split; intros Hnull; try congruence.
  all: mred; unfold NULL.
  all: try (split; [reflexivity|]; do 2 eexists; split; [reflexivity|];
            split; [split; congruence|]; intros Hres';
            first [ discriminate Hres'
                  | eexists; split; [reflexivity|]; rewrite lookup_insert_eq; eauto ]).
  all: repeat split; try reflexivity; try congruence.
  all: intros c st; in_cases.
Qed.

(** A library in which OCI_ObjectInit fails and leaves the address 7, which
    holds no object, in the caller's pointer. *)
Definition N_init_fails : Native :=
  mkNative (nat_status N_ok) (nat_handle N_ok) (nat_bool N_ok) (nat_ub4 N_ok)
           (nat_bytes N_ok)
           (Z.eqb 0) (Z.eqb 0) 1%positive
           (fun _ => true)
           0 (-1) 1 2 2 3
           (fun _ _ => None) (fun _ _ => Some 7%positive).

Lemma OCI_RefGetObject_result_witness :
  (exists l s' r',
     OCI_RefGetObject N_ok (Some 1%positive) s_two = Some (Some l, s') /\
     refs s' !! 1%positive = Some r' /\ ref_pinned r' = true /\
     is_Some (objs s' !! l)) /\
  (exists o s' r',
     OCI_RefGetObject N_init_fails (Some 1%positive) s_two = Some (o, s') /\
     refs s' !! 1%positive = Some r' /\ o = ref_obj r' /\ ref_pinned r' = false).
Proof.
  split.
  - destruct (OCI_RefGetObject N_ok (Some 1%positive) s_two)
      as [[o s']|] eqn:Hrun; [|vm_compute in Hrun; discriminate Hrun].
    destruct (OCI_RefGetObject_result N_ok 1%positive s_two o s' Hrun)
      as (r & r' & delta & Hr & Hr' & Htr & _ & Hpin).
    vm_compute in Hr. injection Hr as <-.
    destruct (Hpin eq_refl) as (Ho & res & delta' & Hd & Hiff & Hlive).
    assert (Hres : res = true).
    { vm_compute in Hrun. injection Hrun as _ <-. vm_compute in Htr.
      rewrite Hd in Htr. injection Htr as <- _. reflexivity. }
    destruct (Hlive Hres) as (l & -> & Hl).
    exists l, s', r'. repeat split; [exact Hr' | apply Hiff, Hres | exact Hl].
  - destruct (OCI_RefGetObject N_init_fails (Some 1%positive) s_two)
      as [[o s']|] eqn:Hrun; [|vm_compute in Hrun; discriminate Hrun].
    destruct (OCI_RefGetObject_result N_init_fails 1%positive s_two o s' Hrun)
      as (r & r' & delta & Hr & Hr' & Htr & _ & Hpin).
    vm_compute in Hr. injection Hr as <-.
    destruct (Hpin eq_refl) as (Ho & res & delta' & Hd & Hiff & _).
    exists o, s', r'. repeat split; [exact Hr' | exact Ho |].
    destruct (ref_pinned r') eqn:Hp; [|reflexivity].
    exfalso. assert (Hres : res = true) by (apply Hiff; reflexivity).
    vm_compute in Hrun. injection Hrun as _ <-. vm_compute in Htr.
    rewrite Hd, Hres in Htr. discriminate Htr.
Defined.

(** ** OCI_RefSetNull *)

(** X4: a returning OCI_RefSetNull leaves the reference unpinned and without
    object, whatever its result; the native OCIRefClear is called on the
    reference's handle exactly when the result is TRUE, that is when the
    unpinning made no failing native call, and it is the only direct native
    call of the run. *)
Theorem OCI_RefSetNull_clears N p s b s' :
  OCI_RefSetNull N (Some p) s = Some (b, s') ->
  exists r delta,
    refs s !! p = Some r /\ trace s' = delta ++ trace s /\
    refs s' = <[p := set_ref_obj NULL (set_ref_pinned false r)]> (refs s) /\
    (b = true <-> In (EvDirect (OCIRefClear (ref_handle r))) delta) /\
    (b = true <-> wrapped_ok N delta) /\
    (forall c, In (EvDirect c) delta -> c = OCIRefClear (ref_handle r)).
Proof.
  intros Hrun.
  unfold OCI_RefSetNull, OCI_ObjectFree, OCI_RESULT, direct, null_pointer in Hrun.
  cbv zeta in Hrun. minv.
  all: match goal with
       | H : OCI_RefUnpin _ (Some _) _ = Some _ |- _ =>
           let r := fresh "r" in
           let Hr := fresh "Hr" in
           destruct (OCI_RefUnpin_refs _ _ _ _ _ H) as (r & Hr & _)
       end.
  all: use_unpin_conv; minv.
  all: do 2 eexists; (split; [eassumption|]); (split; [solve_delta|]).
  all: rewrite ?insert_insert_eq; (split; [reflexivity|]).
  all: unfold wrapped_ok in *; cbn [In app].
  all: split; [|split].
  all: try solve [intuition (try discriminate; simplify_eq; auto;
                             exfalso; eapply Hnd; eassumption)].
  - split; [intros Hb c st [Hin|[Hin|Hin]]; try discriminate;
            exact (proj1 Hres Hb c st Hin)|reflexivity].
  - split; [discriminate|].
    intros Hw. apply Hres. intros c st Hin. apply (Hw c st). auto.
Qed.

Lemma OCI_RefSetNull_clears_witness :
  exists b s' r,
    OCI_RefSetNull N_unpin_fails (Some 1%positive) s_pinned = Some (b, s') /\
    refs s_pinned !! 1%positive = Some r.
Proof.
  destruct (OCI_RefSetNull N_unpin_fails (Some 1%positive) s_pinned)
    as [[b s']|] eqn:Hrun; [|vm_compute in Hrun; discriminate Hrun].
  destruct (OCI_RefSetNull_clears N_unpin_fails 1%positive s_pinned b s' Hrun)
    as (r & _ & Hr & _).
  exists b, s', r. split; [reflexivity|exact Hr].
Defined.

(** ** OCI_RefCreate and OCI_RefInit *)

Lemma fresh_lookup_None {A} (m : gmap positive A) : m !! fresh (dom m) = None.
Proof. apply not_elem_of_dom, is_fresh. Qed.

(** The two outcomes of OCI_RefCreate. *)
Lemma OCI_RefCreate_outcome N cn sc s :
  loaded s = true ->
  let tr1 := EvMemAlloc OCI_IPC_REF true :: trace s in
  exists ref s',
    OCI_RefCreate N (Some cn) (Some sc) s = Some (ref, s') /\
    objs s' = objs s /\
    match ref with
    | Some p =>
        mem_alloc_ok N (trace s) = true /\
        call2_ok N (nat_status N tr1 OCIObjectNew) = true /\
        refs s !! p = None /\
        refs s' = <[p := mkRef NULL (nat_handle N tr1 OCIObjectNew)
                           OCI_OBJECT_ALLOCATED false (Some cn) (Some sc)]> (refs s)
    | None =>
        (mem_alloc_ok N (trace s) = false \/
         call2_ok N (nat_status N tr1 OCIObjectNew) = false) /\
        refs s' = refs s
    end.
Proof.
  intros Hl tr1. subst tr1.
  destruct (OCI_RefCreate N (Some cn) (Some sc) s) as [[ref s']|] eqn:Hrun.
  - exists ref, s'. split; [reflexivity|].
    unfold OCI_RefCreate, OCI_CHECK_INITIALIZED, OCI_RefInit, OCI_MemAlloc_ref,
      OCI_RefFree, OCI_RefUnpin, OCI_ObjectFree, OCI_CALL2, OCI_RESULT, direct,
      null_pointer, zero_ref in Hrun.
    cbv zeta in Hrun. minv; unfold zero_ref in *; minv.
    all: rewrite ?insert_insert_eq, ?delete_insert_eq.
    all: rewrite ?(delete_id _ _ (fresh_lookup_None _)).
    all: repeat split; auto using fresh_lookup_None.
  - exfalso.
    unfold OCI_RefCreate, OCI_CHECK_INITIALIZED, OCI_RefInit, OCI_MemAlloc_ref,
      OCI_RefFree, OCI_RefUnpin, OCI_ObjectFree, OCI_CALL2, OCI_RESULT, direct,
      null_pointer, zero_ref in Hrun.
    cbv zeta in Hrun. minv; unfold zero_ref in *; minv.
Qed.

(** X5: in an initialised library, OCI_RefCreate with a connection and a
    type always returns.  It returns a reference exactly when the allocation
    and the native OCIObjectNew both succeed; the reference is then at an
    address that was not in use, in the allocated state, unpinned, without
    object, with the given connection and type and the handle that
    OCIObjectNew produced.  Otherwise NULL is returned and the store of
    references is as before: the structure allocated for a failed
    OCIObjectNew has been given back.  Objects are never touched. *)
Theorem OCI_RefCreate_result N cn sc s :
  loaded s = true ->
  let tr1 := EvMemAlloc OCI_IPC_REF true :: trace s in
  exists ref s',
    OCI_RefCreate N (Some cn) (Some sc) s = Some (ref, s') /\
    objs s' = objs s /\
    match ref with
    | Some p =>
        mem_alloc_ok N (trace s) = true /\
        call2_ok N (nat_status N tr1 OCIObjectNew) = true /\
        refs s !! p = None /\
        refs s' = <[p := mkRef NULL (nat_handle N tr1 OCIObjectNew)
                           OCI_OBJECT_ALLOCATED false (Some cn) (Some sc)]> (refs s)
    | None =>
        (mem_alloc_ok N (trace s) = false \/
         call2_ok N (nat_status N tr1 OCIObjectNew) = false) /\
        refs s' = refs s
    end.
Proof. exact (OCI_RefCreate_outcome N cn sc s). Qed.

Lemma OCI_RefCreate_result_witness :
  loaded s_pinned = true /\
  exists ref s', OCI_RefCreate N_ok (Some 3%positive) (Some 4%positive) s_pinned = Some (ref, s').
Proof.
  split; [reflexivity|].
  destruct (OCI_RefCreate_result N_ok 3%positive 4%positive s_pinned eq_refl)
    as (ref & s' & Hrun & _).
  exists ref, s'. exact Hrun.
Defined.

(** OCI_RefFree on an application-created reference that is not pinned and
    has no object. *)
Lemma OCI_RefFree_plain N p r cn s :
  refs s !! p = Some r -> ref_pinned r = false -> ref_obj r = NULL ->
  ref_hstate r = OCI_OBJECT_ALLOCATED -> ref_con r = Some cn ->
  OCI_RefFree N (Some p) s =
    Some (true,
          mkState (loaded s) (delete p (refs s)) (objs s) (enqs s)
            (EvResult true :: EvMemFree OCI_IPC_REF p
             :: EvDirect (OCIObjectFree (ref_handle r)) :: trace s)).
Proof.
  intros Hr Hp Ho Hh Hc.
  destruct (OCI_RefFree N (Some p) s) as [[b s']|] eqn:Hrun.
  - unfold OCI_RefFree, OCI_RefUnpin, OCI_ObjectFree, OCI_CALL2, OCI_RESULT, direct,
      null_pointer in Hrun.
    cbv zeta in Hrun. unfold NULL in *. minv; congruence.
  - exfalso.
    unfold OCI_RefFree, OCI_RefUnpin, OCI_ObjectFree, OCI_CALL2, OCI_RESULT, direct,
      null_pointer in Hrun.
    cbv zeta in Hrun. unfold NULL in *. minv; congruence.
Qed.

(** X6: a reference obtained from OCI_RefCreate can be given back: the
    OCI_RefFree that follows returns TRUE, calls the native release on the
    handle that OCIObjectNew produced, and leaves the stores of references
    and objects as they were before the creation. *)
Theorem OCI_RefCreate_then_free N cn sc s p s1 :
  loaded s = true ->
  OCI_RefCreate N (Some cn) (Some sc) s = Some (Some p, s1) ->
  exists s2,
    OCI_RefFree N (Some p) s1 = Some (true, s2) /\
    refs s2 = refs s /\ objs s2 = objs s /\
    trace s2 =
      EvResult true :: EvMemFree OCI_IPC_REF p
      :: EvDirect (OCIObjectFree
                     (nat_handle N (EvMemAlloc OCI_IPC_REF true :: trace s) OCIObjectNew))
      :: trace s1.
Proof.
  intros Hl Hrun.
  destruct (OCI_RefCreate_outcome N cn sc s Hl) as (ref & s' & Hrun' & Hobjs & Hpost).
  cbv zeta in Hrun'. rewrite Hrun in Hrun'. injection Hrun' as <- <-.
  destruct Hpost as (_ & _ & Hfresh & Hrefs).
  assert (Hp : refs s1 !! p = Some (mkRef NULL
            (nat_handle N (EvMemAlloc OCI_IPC_REF true :: trace s) OCIObjectNew)
            OCI_OBJECT_ALLOCATED false (Some cn) (Some sc)))
    by (rewrite Hrefs; apply lookup_insert_eq).
  eexists. split; [exact (OCI_RefFree_plain N p _ cn s1 Hp eq_refl eq_refl eq_refl eq_refl)|].
  cbn [refs objs trace ref_handle]. rewrite Hrefs, delete_insert_eq.
  rewrite (delete_id _ _ Hfresh). auto.
Qed.

Lemma OCI_RefCreate_then_free_witness :
  exists p s1 s2,
    OCI_RefCreate N_ok (Some 3%positive) (Some 4%positive) s_pinned = Some (Some p, s1) /\
    OCI_RefFree N_ok (Some p) s1 = Some (true, s2).
Proof.
  assert (H : exists p s1,
             OCI_RefCreate N_ok (Some 3%positive) (Some 4%positive) s_pinned =
               Some (Some p, s1))
    by (do 2 eexists; vm_compute; reflexivity).
  destruct H as (p & s1 & H1).
  destruct (OCI_RefCreate_then_free N_ok 3%positive 4%positive s_pinned p s1 eq_refl H1)
    as (s2 & H2 & _).
  exists p, s1, s2. split; [exact H1|exact H2].
Defined.

(** OCI_RefFree turns a fetched-clean reference down. *)
Lemma OCI_RefFree_fetched_clean N p r s :
  refs s !! p = Some r -> ref_hstate r = OCI_OBJECT_FETCHED_CLEAN ->
  OCI_RefFree N (Some p) s = Some (false, s).
Proof.
  intros Hr Hh. unfold OCI_RefFree, bind, load_ref, OCI_CHECK_OBJECT_FETCHED.
  rewrite Hr, Hh. reflexivity.
Qed.


(** X7: OCI_RefInit on a fetched handle.  With a non-NULL native handle the
    structure (allocated when the caller's pointer is NULL, the caller's own
    otherwise) ends up in the fetched-clean state, unpinned and without
    object, with the given handle, connection and type; the returned
    pointer is the one left in the caller's variable; and OCI_RefFree
    refuses such a reference: it returns FALSE and changes nothing.  NULL is
    returned only when the allocation failed, the references being as
    before. *)
Theorem OCI_RefInit_fetched N con sc cur0 h s ref cur s1 :
  OCI_RefInit N con sc (Some cur0) (Some h) s = Some ((ref, cur), s1) ->
  ref = cur /\
  match ref with
  | Some p =>
      (cur0 = NULL \/ cur0 = Some p) /\
      refs s1 !! p = Some (mkRef NULL (Some h) OCI_OBJECT_FETCHED_CLEAN false con sc) /\
      OCI_RefFree N (Some p) s1 = Some (false, s1)
  | None =>
      cur0 = NULL /\ mem_alloc_ok N (trace s) = false /\ refs s1 = refs s
  end.
Proof.
  intros Hrun.
  unfold OCI_RefInit, OCI_MemAlloc_ref, OCI_RefFree in Hrun.
  cbv zeta in Hrun. minv; unfold zero_ref in *; minv.
  3: { repeat split; reflexivity. }
  all: use_unpin_refs; minv.
  all: assert (Hp : refs s1 !! _ =
                Some (mkRef NULL (Some h) OCI_OBJECT_FETCHED_CLEAN false con sc))
         by (rewrite Hrefs, lookup_insert_eq; reflexivity).
  all: rewrite <- ?Hrefs.
  all: split; [reflexivity|]; split; [auto|]; split; [exact Hp|].
  all: exact (OCI_RefFree_fetched_clean N _ _ s1 Hp eq_refl).
Qed.

Lemma OCI_RefInit_fetched_witness :
  exists ref cur s1,
    OCI_RefInit N_ok (Some 3%positive) (Some 4%positive) (Some NULL) (Some 7%positive)
      s_pinned = Some ((ref, cur), s1) /\
    ref = cur.
Proof.
  destruct (OCI_RefInit N_ok (Some 3%positive) (Some 4%positive) (Some NULL)
              (Some 7%positive) s_pinned)
    as [[[ref cur] s1]|] eqn:Hrun; [|vm_compute in Hrun; discriminate Hrun].
  exists ref, cur, s1. split; [reflexivity|].
  exact (proj1 (OCI_RefInit_fetched N_ok _ _ _ _ _ _ _ _ Hrun)).
Defined.

(** ** OCI_RefAssign *)

Lemma set_ref_nty_id r n : ref_nty r = n -> set_ref_nty n r = r.
Proof. destruct r; cbn; intros ->; reflexivity. Qed.

(** What a returning OCI_RefAssign between two live references has done.
    The two pointers may be equal. *)
Lemma OCI_RefAssign_Some N p q s b s' :
  OCI_RefAssign N (Some p) (Some q) s = Some (b, s') ->
  exists r rs,
    refs s !! p = Some r /\ refs s !! q = Some rs /\
    (ref_nty r <> ref_nty rs ->
     b = false /\ s' = raised (ExcTypeNotCompatible (ref_con r)) s) /\
    (ref_nty r = ref_nty rs ->
     let c := OCIRefAssign (ref_handle rs) (ref_handle r) in
     let r1 := set_ref_handle (nat_handle N (trace s) c) r in
     b = call2_ok N (nat_status N (trace s) c) /\
     refs s' = <[p := if b then set_ref_pinned (ref_pinned rs) (set_ref_obj NULL r1)
                       else r1]> (refs s)).
Proof.
  intros Hrun.
  unfold OCI_RefAssign, OCI_ObjectFree, OCI_CALL2, OCI_RESULT, direct, null_pointer in Hrun.
  cbv zeta in Hrun. minv.
  all: do 2 eexists; (split; [eassumption|]); (split; [eassumption|]).
  all: split; [intros Hdiff; try congruence; split; reflexivity
              |intros Hsame; try congruence; cbv zeta].
  all: match goal with H : call2_ok _ _ = _ |- _ => rewrite H end.
  all: (split; [reflexivity|]).
  all: rewrite ?insert_insert_eq; try reflexivity.
  all: f_equal.
  all: destruct (decide (p = q)) as [<-|Hne];
    [ rewrite ?insert_insert_eq, ?lookup_insert_eq in *
    | rewrite ?lookup_insert_ne in * by assumption ];
    simplify_eq.
  all: match goal with
       | r : OCI_Ref |- _ => destruct r; cbn in *; simplify_eq; reflexivity
       end.
Qed.

(** X8: OCI_RefAssign between two live references never changes the type,
    the handle state or the connection of the destination and never touches
    another reference; when it returns TRUE the two references have the
    same type; and when the types differ it returns FALSE at once, raising
    the type error and nothing else: no native call, no store update. *)
Theorem OCI_RefAssign_keeps_type N p q s b s' :
  OCI_RefAssign N (Some p) (Some q) s = Some (b, s') ->
  exists r rs r',
    refs s !! p = Some r /\ refs s !! q = Some rs /\ refs s' !! p = Some r' /\
    ref_nty r' = ref_nty r /\ ref_hstate r' = ref_hstate r /\
    ref_con r' = ref_con r /\
    (b = true -> ref_nty r' = ref_nty rs) /\
    (forall k, k <> p -> refs s' !! k = refs s !! k) /\
    (ref_nty r <> ref_nty rs ->
     b = false /\ s' = raised (ExcTypeNotCompatible (ref_con r)) s).
Proof.
  intros Hrun.
  destruct (OCI_RefAssign_Some _ _ _ _ _ _ Hrun) as (r & rs & Hr & Hrs & Hdiff & Hsame).
  destruct (decide (ref_nty r = ref_nty rs)) as [Heq|Hne].
  - destruct (Hsame Heq) as [Hb Hrefs]. cbv zeta in Hrefs.
    eexists r, rs, _. split; [exact Hr|]. split; [exact Hrs|].
    split; [rewrite Hrefs; apply lookup_insert_eq|].
    repeat split.
    + destruct b; reflexivity.
    + destruct b; reflexivity.
    + destruct b; reflexivity.
    + intros ->. exact Heq.
    + intros k Hk. rewrite Hrefs. apply lookup_insert_ne. congruence.
    + contradiction.
    + contradiction.
  - destruct (Hdiff Hne) as [-> ->].
    exists r, rs, r. repeat split; auto; discriminate.
Qed.

Lemma OCI_RefAssign_keeps_type_witness :
  exists b s' r,
    OCI_RefAssign N_ok (Some 1%positive) (Some 2%positive) s_two = Some (b, s') /\
    refs s_two !! 1%positive = Some r.
Proof.
  destruct (OCI_RefAssign N_ok (Some 1%positive) (Some 2%positive) s_two)
    as [[b s']|] eqn:Hrun; [|vm_compute in Hrun; discriminate Hrun].
  destruct (OCI_RefAssign_keeps_type N_ok 1%positive 2%positive s_two b s' Hrun)
    as (r & _ & _ & Hr & _).
  exists b, s', r. split; [reflexivity|exact Hr].
Defined.

(** X9: OCI_RefAssign between two live references of the same type returns
    what the translator says of the native OCIRefAssign.  On TRUE the
    destination has lost its object pointer, carries the pinned flag of the
    source and the handle left by the native call; on FALSE its object
    pointer and pinned flag are as before. *)
Theorem OCI_RefAssign_outcome N p q s b s' :
  OCI_RefAssign N (Some p) (Some q) s = Some (b, s') ->
  exists r rs r',
    refs s !! p = Some r /\ refs s !! q = Some rs /\ refs s' !! p = Some r' /\
    (ref_nty r = ref_nty rs ->
     let c := OCIRefAssign (ref_handle rs) (ref_handle r) in
     b = call2_ok N (nat_status N (trace s) c) /\
     ref_handle r' = nat_handle N (trace s) c /\
     (b = true -> ref_obj r' = NULL /\ ref_pinned r' = ref_pinned rs) /\
     (b = false -> ref_obj r' = ref_obj r /\ ref_pinned r' = ref_pinned r)).
Proof.
  intros Hrun.
  destruct (OCI_RefAssign_Some _ _ _ _ _ _ Hrun) as (r & rs & Hr & Hrs & Hdiff & Hsame).
  destruct (decide (ref_nty r = ref_nty rs)) as [Heq|Hne].
  - destruct (Hsame Heq) as [Hb Hrefs]. cbv zeta in Hrefs.
    eexists r, rs, _. split; [exact Hr|]. split; [exact Hrs|].
    split; [rewrite Hrefs; apply lookup_insert_eq|].
    intros _. cbv zeta. split; [exact Hb|].
    destruct b; repeat split; try reflexivity; discriminate.
  - destruct (Hdiff Hne) as [-> ->].
    exists r, rs, r. split; [exact Hr|]. split; [exact Hrs|].
    split; [exact Hr|]. contradiction.
Qed.

Lemma OCI_RefAssign_outcome_witness :
  exists b s' r,
    OCI_RefAssign N_ok (Some 2%positive) (Some 1%positive) s_two = Some (b, s') /\
    refs s_two !! 2%positive = Some r.
Proof.
  destruct (OCI_RefAssign N_ok (Some 2%positive) (Some 1%positive) s_two)
    as [[b s']|] eqn:Hrun; [|vm_compute in Hrun; discriminate Hrun].
  destruct (OCI_RefAssign_outcome N_ok 2%positive 1%positive s_two b s' Hrun)
    as (r & _ & _ & Hr & _).
  exists b, s', r. split; [reflexivity|exact Hr].
Defined.

(** X10: OCI_RefAssign from a source that is not pinned keeps the invariant
    that a pinned reference has an object. *)
Theorem OCI_RefAssign_unpinned_source N p q rs s b s' :
  pinned_has_obj s ->
  refs s !! q = Some rs -> ref_pinned rs = false ->
  OCI_RefAssign N (Some p) (Some q) s = Some (b, s') ->
  pinned_has_obj s'.
Proof.
  intros Hinv Hq Hunp Hrun.
  destruct (OCI_RefAssign_Some _ _ _ _ _ _ Hrun) as (r & rs' & Hr & Hrs & Hdiff & Hsame).
  assert (rs' = rs) by congruence. subst rs'.
  destruct (decide (ref_nty r = ref_nty rs)) as [Heq|Hne].
  - destruct (Hsame Heq) as [_ Hrefs]. cbv zeta in Hrefs.
    intros k r0 Hk. rewrite Hrefs in Hk.
    apply lookup_insert_Some in Hk as [[_ <-]|[_ Hk]]; [|exact (Hinv k r0 Hk)].
    pose proof (Hinv p r Hr) as Hc.
    destruct b; [rewrite Hunp; reflexivity|].
    destruct r; exact Hc.
  - destruct (Hdiff Hne) as [_ ->]. exact Hinv.
Qed.

Lemma OCI_RefAssign_unpinned_source_witness :
  exists b s',
    OCI_RefAssign N_ok (Some 2%positive) (Some 1%positive) s_two = Some (b, s') /\
    pinned_has_obj s'.
Proof.
  destruct (OCI_RefAssign N_ok (Some 2%positive) (Some 1%positive) s_two)
    as [[b s']|] eqn:Hrun; [|vm_compute in Hrun; discriminate Hrun].
  exists b, s'. split; [reflexivity|].
  exact (OCI_RefAssign_unpinned_source N_ok 2%positive 1%positive r_plain s_two b s'
           s_two_pinned_has_obj eq_refl eq_refl Hrun).
Defined.

(** ** What the accessors leave alone *)

(** The initialised flag and the three stores are the same in both states. *)
Definition same_stores (s s' : State) : Prop :=
  loaded s' = loaded s /\ refs s' = refs s /\ objs s' = objs s /\ enqs s' = enqs s.

Lemma to_ub4_range z : 0 <= to_ub4 z < 2 ^ 32.
Proof. unfold to_ub4. apply Z.mod_pos_bound. lia. Qed.

Lemma OCI_RefIsNull_frame N ref s b s' :
  OCI_RefIsNull N ref s = Some (b, s') -> same_stores s s'.
Proof.
  intros Hrun. unfold OCI_RefIsNull, OCI_RESULT, direct, null_pointer in Hrun.
  cbv zeta in Hrun. minv; repeat split.
Qed.

Lemma div_sizeof_range x (sz : positive) :
  0 <= x -> 0 <= x / Z.pos sz <= x.
Proof.
  intros Hx. split; [apply Z.div_pos; lia|].
  apply Z.div_le_upper_bound; [lia|nia].
Qed.

Lemma OCI_RefGetHexSize_frame N ref s n s' :
  OCI_RefGetHexSize N ref s = Some (n, s') ->
  same_stores s s' /\ 0 <= n < 2 ^ 32 /\
  forall p r, ref = Some p -> refs s !! p = Some r ->
    n <= to_ub4 (nat_ub4 N (trace s) (OCIRefHexSize (ref_handle r))).
Proof.
  intros Hrun. unfold OCI_RefGetHexSize, OCI_RESULT, direct, null_pointer in Hrun.
  cbv zeta in Hrun. destruct ref as [q|]; minv.
  - match goal with
    | |- context [to_ub4 ?x / Z.pos ?sz] =>
        pose proof (to_ub4_range x) as Hu;
        pose proof (div_sizeof_range (to_ub4 x) sz ltac:(lia)) as Hd
    end.
    split; [repeat split|]. split; [lia|].
    intros p r [= <-] Hr. simplify_eq. lia.
  - split; [repeat split|]. split; [split; [lia|reflexivity]|]. intros p r [=].
Qed.

Lemma OCI_RefGetSchema_frame ref s t s' :
  OCI_RefGetSchema ref s = Some (t, s') ->
  same_stores s s' /\
  forall p r, ref = Some p -> refs s !! p = Some r -> t = ref_nty r.
Proof.
  intros Hrun. unfold OCI_RefGetSchema, OCI_RESULT, null_pointer in Hrun.
  cbv zeta in Hrun. destruct ref as [q|]; minv.
  - split; [repeat split|]. intros p r [= <-] Hr. congruence.
  - split; [repeat split|]. intros p r [=].
Qed.

Lemma OCI_RefToText_frame N ref size str s b str' s' :
  OCI_RefToText N ref size str s = Some ((b, str'), s') ->
  same_stores s s' /\ length <$> str' = length <$> str.
Proof.
  intros Hrun.
  unfold OCI_RefToText, OCI_CALL2, OCI_RESULT, null_pointer, write_at, copy_into in Hrun.
  cbv zeta in Hrun. minv.
  all: split; [repeat split|]; try reflexivity.
  all: cbn [fmap option_fmap option_map]; f_equal.
  all: rewrite length_insert, length_app, length_drop, length_insert.
  all: match goal with
       | H : (_ <=? _)%nat = true |- _ =>
           apply Nat.leb_le in H; rewrite length_insert in H; lia
       end.
Qed.

(** X11: the accessors of a reference only read.  A returning
    OCI_RefIsNull, OCI_RefGetHexSize, OCI_RefGetSchema or OCI_RefToText
    leaves the initialised flag and every structure as it was;
    OCI_RefGetHexSize returns a value between 0 and the ub4 size reported
    by the native library; OCI_RefGetSchema returns the type stored in the
    reference; OCI_RefToText keeps the length of the caller's block. *)
Theorem ref_accessors_read_only N s :
  (forall ref b s', OCI_RefIsNull N ref s = Some (b, s') -> same_stores s s') /\
  (forall ref n s',
     OCI_RefGetHexSize N ref s = Some (n, s') ->
     same_stores s s' /\ 0 <= n < 2 ^ 32 /\
     forall p r, ref = Some p -> refs s !! p = Some r ->
       n <= to_ub4 (nat_ub4 N (trace s) (OCIRefHexSize (ref_handle r)))) /\
  (forall ref t s',
     OCI_RefGetSchema ref s = Some (t, s') ->
     same_stores s s' /\
     forall p r, ref = Some p -> refs s !! p = Some r -> t = ref_nty r) /\
  (forall ref size str b str' s',
     OCI_RefToText N ref size str s = Some ((b, str'), s') ->
     same_stores s s' /\ length <$> str' = length <$> str).
Proof.
  split; [|split; [|split]]; intros.
  - eapply OCI_RefIsNull_frame; eauto.
  - eapply OCI_RefGetHexSize_frame; eauto.
  - eapply OCI_RefGetSchema_frame; eauto.
  - eapply OCI_RefToText_frame; eauto.
Qed.

Lemma ref_accessors_read_only_witness :
  exists n s',
    OCI_RefGetHexSize N_ok (Some 1%positive) s_pinned = Some (n, s') /\
    same_stores s_pinned s' /\ 0 <= n < 2 ^ 32.
Proof.
  destruct (OCI_RefGetHexSize N_ok (Some 1%positive) s_pinned)
    as [[n s']|] eqn:Hrun; [|discriminate Hrun].
  destruct (proj1 (proj2 (ref_accessors_read_only N_ok s_pinned))
              (Some 1%positive) n s' Hrun) as (Hsame & Hn & _).
  exists n, s'. split; [reflexivity|]. split; [exact Hsame|exact Hn].
Defined.
(** ** Creating and freeing an enqueue object *)

(** The outcomes of OCI_EnqueueCreate on checked arguments. *)
Lemma OCI_EnqueueCreate_outcome N ti cn nm s :
  loaded s = true -> ti_con ti = Some cn ->
  let tr1 := EvMemAlloc OCI_IPC_ENQUEUE true :: trace s in
  let opth := nat_handle N tr1 OCIDescriptorAlloc in
  exists enq s',
    OCI_EnqueueCreate N (Some ti) (Some nm) s = Some (enq, s') /\
    refs s' = refs s /\ objs s' = objs s /\
    match enq with
    | Some p =>
        mem_alloc_ok N (trace s) = true /\
        successful N (nat_status N tr1 OCIDescriptorAlloc) = true /\
        enqs s !! p = None /\
        enqs s' = <[p := mkEnqueue (Some ti) nm opth]> (enqs s) /\
        trace s' = EvDirect OCIDescriptorAlloc :: tr1
    | None =>
        enqs s' = enqs s /\
        (mem_alloc_ok N (trace s) = false /\
         trace s' = EvException (ExcNullPointer OCI_IPC_ENQUEUE)
                      :: EvMemAlloc OCI_IPC_ENQUEUE false :: trace s
         \/
         mem_alloc_ok N (trace s) = true /\
         successful N (nat_status N tr1 OCIDescriptorAlloc) = false /\
         exists p, enqs s !! p = None /\
           trace s' = EvMemFree OCI_IPC_ENQUEUE p :: EvDirect (OCIDescriptorFree opth)
                        :: EvDirect OCIDescriptorAlloc :: tr1)
    end.
Proof.
  intros Hl Hcn tr1 opth. subst tr1 opth.
  destruct (OCI_EnqueueCreate N (Some ti) (Some nm) s) as [[enq s']|] eqn:Hrun.
  - exists enq, s'. split; [reflexivity|].
    unfold OCI_EnqueueCreate, OCI_CHECK_INITIALIZED, OCI_EnqueueFree, OCI_RESULT,
      direct, null_pointer in Hrun.
    cbv zeta in Hrun. minv.
    all: rewrite ?insert_insert_eq, ?delete_insert_eq.
    all: rewrite ?(delete_id _ _ (fresh_lookup_None _)).
    all: unfold NULL; cbv iota.
    + repeat split; auto using fresh_lookup_None.
    + do 3 (split; [reflexivity|]). right.
      do 2 (split; [assumption|]). eexists. split; [apply fresh_lookup_None|reflexivity].
    + do 3 (split; [reflexivity|]). left. split; [assumption|reflexivity].
  - exfalso.
    unfold OCI_EnqueueCreate, OCI_CHECK_INITIALIZED, OCI_EnqueueFree, OCI_RESULT,
      direct, null_pointer in Hrun.
    cbv zeta in Hrun. minv.
Qed.

(** X12: in an initialised library, OCI_EnqueueCreate with a type whose
    connection is set and a queue name always returns.  It returns an enqueue
    object exactly when the allocation and the allocation of the options
    descriptor both succeed; the object is then at an address that was not
    in use and carries the type, the name and the descriptor.  Otherwise NULL
    is returned and the store of enqueue objects is as before: after a failed
    descriptor allocation the descriptor and the structure are given back,
    after a failed allocation the cleanup call meets the NULL pointer and
    raises the null-pointer error.  References and objects are never
    touched. *)
Theorem OCI_EnqueueCreate_result N ti cn nm s :
  loaded s = true -> ti_con ti = Some cn ->
  let tr1 := EvMemAlloc OCI_IPC_ENQUEUE true :: trace s in
  let opth := nat_handle N tr1 OCIDescriptorAlloc in
  exists enq s',
    OCI_EnqueueCreate N (Some ti) (Some nm) s = Some (enq, s') /\
    refs s' = refs s /\ objs s' = objs s /\
    match enq with
    | Some p =>
        mem_alloc_ok N (trace s) = true /\
        successful N (nat_status N tr1 OCIDescriptorAlloc) = true /\
        enqs s !! p = None /\
        enqs s' = <[p := mkEnqueue (Some ti) nm opth]> (enqs s) /\
        trace s' = EvDirect OCIDescriptorAlloc :: tr1
    | None =>
        enqs s' = enqs s /\
        (mem_alloc_ok N (trace s) = false /\
         trace s' = EvException (ExcNullPointer OCI_IPC_ENQUEUE)
                      :: EvMemAlloc OCI_IPC_ENQUEUE false :: trace s
         \/
         mem_alloc_ok N (trace s) = true /\
         successful N (nat_status N tr1 OCIDescriptorAlloc) = false /\
         exists p, enqs s !! p = None /\
           trace s' = EvMemFree OCI_IPC_ENQUEUE p :: EvDirect (OCIDescriptorFree opth)
                        :: EvDirect OCIDescriptorAlloc :: tr1)
    end.
Proof. exact (OCI_EnqueueCreate_outcome N ti cn nm s). Qed.

Lemma OCI_EnqueueCreate_result_witness :
  exists p s',
    OCI_EnqueueCreate N_ok (Some ti_sample) (Some [81]) s_enq = Some (Some p, s') /\
    enqs s_enq !! p = None /\
    enqs s' !! p = Some (mkEnqueue (Some ti_sample) [81] (Some 9%positive)).
Proof.
  destruct (OCI_EnqueueCreate_result N_ok ti_sample 3%positive [81] s_enq)
    as (enq & s' & Hrun & _ & _ & Hm); [reflexivity | reflexivity |].
  cbv zeta in Hm. destruct enq as [p|].
  - destruct Hm as (_ & _ & Hp & Hs & _). exists p, s'.
    split; [exact Hrun|]. split; [exact Hp|].
    rewrite Hs. apply lookup_insert_eq.
  - exfalso. destruct Hm as (_ & [(Hf & _) | (_ & Hf & _)]); discriminate Hf.
Defined.

(** X13: an enqueue object that OCI_EnqueueCreate returned is given back by
    OCI_EnqueueFree: the call returns TRUE, releases the options descriptor
    allocated at creation with one OCIDescriptorFree and leaves the three
    stores as they were before the creation. *)
Theorem OCI_EnqueueCreate_then_free N ti nm s p s1 :
  OCI_EnqueueCreate N (Some ti) (Some nm) s = Some (Some p, s1) ->
  let opth := nat_handle N (EvMemAlloc OCI_IPC_ENQUEUE true :: trace s) OCIDescriptorAlloc in
  exists s2,
    OCI_EnqueueFree (Some p) s1 = Some (true, s2) /\
    refs s2 = refs s /\ objs s2 = objs s /\ enqs s2 = enqs s /\
    trace s2 = EvMemFree OCI_IPC_ENQUEUE p :: EvDirect (OCIDescriptorFree opth) :: trace s1.
Proof.
  intros Hrun opth. subst opth.
  unfold OCI_EnqueueCreate, OCI_CHECK_INITIALIZED, OCI_EnqueueFree, OCI_RESULT,
    direct, null_pointer in Hrun.
  cbv zeta in Hrun. minv.
  unfold OCI_EnqueueFree, direct, bind, load_enq, free_enq, get_trace, emit, ret.
  cbn. rewrite ?insert_insert_eq, ?lookup_insert_eq. cbn.
  rewrite ?lookup_insert_eq. cbn.
  eexists. split; [reflexivity|]. cbn.
  rewrite ?delete_insert_eq, ?(delete_id _ _ (fresh_lookup_None _)).
  repeat split.
Qed.

Lemma OCI_EnqueueCreate_then_free_witness :
  exists p s1 s2,
    OCI_EnqueueCreate N_ok (Some ti_sample) (Some [81]) s_enq = Some (Some p, s1) /\
    OCI_EnqueueFree (Some p) s1 = Some (true, s2) /\
    enqs s2 = enqs s_enq.
Proof.
  destruct (OCI_EnqueueCreate N_ok (Some ti_sample) (Some [81]) s_enq)
    as [[[p|] s1]|] eqn:Hrun; [| discriminate Hrun | discriminate Hrun].
  destruct (OCI_EnqueueCreate_then_free N_ok ti_sample [81] s_enq p s1 Hrun)
    as (s2 & Hfree & _ & _ & He & _).
  exists p, s1, s2. repeat split; assumption.
Defined.

(** ** The operations on an enqueue object *)

Ltac frame_enq :=
  match goal with
  | Hrun : _ = Some _ |- _ =>
      unfold OCI_EnqueuePut, OCI_EnqueueGetVisibility, OCI_EnqueueSetVisibility,
        OCI_EnqueueGetSequenceDeviation, OCI_EnqueueSetSequenceDeviation,
        OCI_EnqueueGetRelativeMsgID, OCI_EnqueueSetRelativeMsgID,
        OCI_CHECK_ENUM_VALUE, enq_con, OCI_CALL2, OCI_RESULT, direct,
        null_pointer, copy_into in Hrun;
      cbv zeta in Hrun
  end.

Lemma OCI_EnqueuePut_frame N enq msg s b s' :
  OCI_EnqueuePut N enq msg s = Some (b, s') -> same_stores s s'.
Proof. intros Hrun. frame_enq. minv; repeat split. Qed.

Lemma OCI_EnqueueGetVisibility_frame N enq s v s' :
  OCI_EnqueueGetVisibility N enq s = Some (v, s') ->
  same_stores s s' /\ 0 <= v < 2 ^ 32.
Proof.
  intros Hrun. frame_enq. destruct enq; minv.
  all: split; [repeat split|]; try apply to_ub4_range.
  all: split; [lia|reflexivity].
Qed.

Lemma OCI_EnqueueSetVisibility_frame N enq v s b s' :
  OCI_EnqueueSetVisibility N enq v s = Some (b, s') -> same_stores s s'.
Proof. intros Hrun. frame_enq. minv; repeat split. Qed.

Lemma OCI_EnqueueGetSequenceDeviation_frame N enq s v s' :
  OCI_EnqueueGetSequenceDeviation N enq s = Some (v, s') ->
  same_stores s s' /\ 0 <= v < 2 ^ 32.
Proof.
  intros Hrun. frame_enq. destruct enq; minv.
  all: split; [repeat split|]; try apply to_ub4_range.
  all: split; [lia|reflexivity].
Qed.

Lemma OCI_EnqueueSetSequenceDeviation_frame N enq v s b s' :
  OCI_EnqueueSetSequenceDeviation N enq v s = Some (b, s') -> same_stores s s'.
Proof. intros Hrun. frame_enq. minv; repeat split. Qed.

Lemma OCI_EnqueueGetRelativeMsgID_frame N enq id len s b id' len' s' :
  OCI_EnqueueGetRelativeMsgID N enq id len s = Some ((b, id', len'), s') ->
  same_stores s s'.
Proof. intros Hrun. frame_enq. minv; repeat split. Qed.

Lemma OCI_EnqueueSetRelativeMsgID_frame N enq id len s b s' :
  OCI_EnqueueSetRelativeMsgID N enq id len s = Some (b, s') -> same_stores s s'.
Proof. intros Hrun. frame_enq. minv; repeat split. Qed.

(** X14: the operations on an enqueue object work on the native descriptor
    only: whatever their arguments and result, OCI_EnqueuePut and the getters
    and setters of the visibility, the sequence deviation and the relative
    message identifier leave the initialisation flag and the stores of
    references, objects and enqueue objects as they were.  The two integer
    getters return an unsigned 32-bit value. *)
Theorem enqueue_operations_read_only N s enq :
  (forall msg b s', OCI_EnqueuePut N enq msg s = Some (b, s') -> same_stores s s') /\
  (forall v s', OCI_EnqueueGetVisibility N enq s = Some (v, s') ->
     same_stores s s' /\ 0 <= v < 2 ^ 32) /\
  (forall v b s', OCI_EnqueueSetVisibility N enq v s = Some (b, s') -> same_stores s s') /\
  (forall v s', OCI_EnqueueGetSequenceDeviation N enq s = Some (v, s') ->
     same_stores s s' /\ 0 <= v < 2 ^ 32) /\
  (forall v b s', OCI_EnqueueSetSequenceDeviation N enq v s = Some (b, s') ->
     same_stores s s') /\
  (forall id len b id' len' s',
     OCI_EnqueueGetRelativeMsgID N enq id len s = Some ((b, id', len'), s') ->
     same_stores s s') /\
  (forall id len b s', OCI_EnqueueSetRelativeMsgID N enq id len s = Some (b, s') ->
     same_stores s s').
Proof.
  repeat apply conj; intros.
  - eapply OCI_EnqueuePut_frame; eauto.
  - eapply OCI_EnqueueGetVisibility_frame; eauto.
  - eapply OCI_EnqueueSetVisibility_frame; eauto.
  - eapply OCI_EnqueueGetSequenceDeviation_frame; eauto.
  - eapply OCI_EnqueueSetSequenceDeviation_frame; eauto.
  - eapply OCI_EnqueueGetRelativeMsgID_frame; eauto.
  - eapply OCI_EnqueueSetRelativeMsgID_frame; eauto.
Qed.

Lemma enqueue_operations_read_only_witness :
  exists v s', OCI_EnqueueGetVisibility N_ok (Some 1%positive) s_enq = Some (v, s') /\
    same_stores s_enq s' /\ 0 <= v < 2 ^ 32.
Proof.
  destruct (OCI_EnqueueGetVisibility N_ok (Some 1%positive) s_enq)
    as [[v s']|] eqn:Hrun; [|discriminate Hrun].
  exists v, s'. split; [reflexivity|].
  exact (proj1 (proj2 (enqueue_operations_read_only N_ok s_enq (Some 1%positive)))
           v s' Hrun).
Defined.

(** A library in which the attribute fetch reports an error and leaves a
    raw value all the same. *)
Definition N_fetch_fails : Native :=
  mkNative (fun _ c => match c with OCIAttrGet _ _ => -1 | _ => 0 end)
           (nat_handle N_ok) (nat_bool N_ok) (nat_ub4 N_ok) (nat_bytes N_ok)
           (Z.eqb 0) (Z.eqb 0) 1%positive
           (fun _ => true)
           0 (-1) 1 2 2 3
           (object_init N_ok) (object_init_left N_ok).

(** X15: OCI_EnqueueGetRelativeMsgID updates the caller's block and count
    whether or not the attribute fetch succeeded.  On every return from a
    call on a live enqueue object with non-NULL arguments and a count that
    is an unsigned int, the result is the outcome of the fetch, and
    whatever it is: a raw value left by the fetch is copied, the count
    becoming the smaller of the count and the size of the raw value, that
    many bytes of it replacing the start of the block and the rest of the
    block being kept; without a raw value the count becomes 0 and the block
    is left alone.  The bytes copied never exceed the block. *)
Theorem OCI_EnqueueGetRelativeMsgID_updates N p buf n s b id' len' s' :
  0 <= n < 2 ^ 32 ->
  OCI_EnqueueGetRelativeMsgID N (Some p) (Some buf) (Some n) s = Some ((b, id', len'), s') ->
  exists e ti cn,
    enqs s !! p = Some e /\ enq_typinf e = Some ti /\ ti_con ti = Some cn /\
    let c := OCIAttrGet (enq_opth e) OCI_ATTR_RELATIVE_MSGID in
    let st := nat_status N (trace s) c in
    let value := nat_handle N (trace s) c in
    let raw := nat_bytes N (call2_events N cn c st ++ trace s) (OCIRawSize value) in
    let k := Z.min n (to_ub4 (Z.of_nat (length raw))) in
    b = call2_ok N st /\
    match value with
    | Some _ =>
        len' = Some k /\
        id' = Some (take (Z.to_nat k) raw ++ drop (Z.to_nat k) buf) /\
        length (take (Z.to_nat k) raw) = Z.to_nat k /\
        k <= Z.of_nat (length buf)
    | None => len' = Some 0 /\ id' = Some buf
    end.
Proof.
  intros [Hn _] Hrun. frame_enq. minv.
  all: do 3 eexists; do 3 (split; [eassumption|]).
  all: cbv zeta; unfold call2_events.
  all: match goal with H : call2_ok _ _ = _ |- _ => rewrite H end.
  all: match goal with H : nat_handle _ _ _ = _ |- _ => rewrite H end.
  all: split; [reflexivity|]; cbn [app].
  all: try (split; reflexivity).
  all: match goal with
       | Hc : (_ <=? _)%nat = true |- context [nat_bytes ?M ?tr ?c] =>
           apply Nat.leb_le in Hc;
           set (raw := nat_bytes M tr c) in *;
           destruct (copy_count raw n Hn) as (Hk & Hlen & Hr);
           cbv zeta in Hk, Hlen, Hr;
           set (k := if to_ub4 (Z.of_nat (length raw)) <? n
                     then to_ub4 (Z.of_nat (length raw)) else n) in *;
           clearbody k raw
       end.
  all: rewrite <- Hk; rewrite Hlen in *.
  all: repeat split; try reflexivity; lia.
Qed.

Lemma OCI_EnqueueGetRelativeMsgID_updates_witness :
  exists s',
    OCI_EnqueueGetRelativeMsgID N_fetch_fails (Some 1%positive) (Some [0; 0; 0; 0; 0])
      (Some 2) s_enq = Some ((false, Some [1; 2; 0; 0; 0], Some 2), s').
Proof.
  destruct (OCI_EnqueueGetRelativeMsgID N_fetch_fails (Some 1%positive)
              (Some [0; 0; 0; 0; 0]) (Some 2) s_enq)
    as [[[[b id'] len'] s']|] eqn:Hrun; [|discriminate Hrun].
  destruct (OCI_EnqueueGetRelativeMsgID_updates N_fetch_fails 1%positive
              [0; 0; 0; 0; 0] 2 s_enq b id' len' s' ltac:(lia) Hrun)
    as (e & ti & cn & He & Hti & Hcn & Hout).
  vm_compute in He. injection He as <-.
  cbn in Hti. injection Hti as <-.
  cbn in Hcn. injection Hcn as <-.
  vm_compute in Hout. destruct Hout as (-> & -> & -> & _).
  exists s'. reflexivity.
Defined.

(** ** The native calls of the setters and of OCI_EnqueuePut *)







(** The payload and the indicator that OCI_EnqueuePut hands to OCIAQEnq for
    a message [m] on a queue of type [ti]. *)
Definition enqueued_payload (N : Native) (ti : OCI_TypeInfo) (m : OCI_Msg)
  (payload : ptr) (ind : ind_arg) : Prop :=
  (ti_typecode ti = OCI_UNKNOWN N ->
     payload = msg_payload m /\ ind = IndOfMsg (msg_ind m)) /\
  (ti_typecode ti <> OCI_UNKNOWN N -> msg_ind m = OCI_IND_NULL N ->
     payload = NULL /\ ind = IndNull) /\
  (ti_typecode ti <> OCI_UNKNOWN N -> msg_ind m <> OCI_IND_NULL N ->
     exists o, msg_obj m = Some o /\ payload = obj_handle o /\ ind = IndTab (obj_tab_ind o)).

(** X17: OCI_EnqueuePut on a live enqueue object and a message.  When the
    type descriptor of the message is not that of the queue, the call raises
    the type-compatibility error and returns FALSE without a native call.
    Otherwise it makes one OCIAQEnq call through the translator, with the
    name and options of the enqueue object and the properties of the
    message; a queue of raw type sends the message's own payload and
    indicator, a queue of an object type sends the handle and the indicator
    table of the message's object, or nothing at all when the message is
    NULL, in which case the message's object is not looked at.  The result
    is the outcome of that call. *)
Theorem OCI_EnqueuePut_call N p m s b s' :
  OCI_EnqueuePut N (Some p) (Some m) s = Some (b, s') ->
  exists e ti mti,
    enqs s !! p = Some e /\ enq_typinf e = Some ti /\ msg_typinf m = Some mti /\
    (ti_tdo ti <> ti_tdo mti /\ b = false /\
       s' = raised (ExcTypeNotCompatible (ti_con ti)) s
     \/
     ti_tdo ti = ti_tdo mti /\
     exists cn payload ind,
       ti_con ti = Some cn /\ enqueued_payload N ti m payload ind /\
       let c := OCIAQEnq (enq_name e) (enq_opth e) (msg_proph m) (ti_tdo ti) payload ind in
       let st := nat_status N (trace s) c in
       b = call2_ok N st /\
       trace s' = EvResult b :: call2_events N cn c st ++ trace s).
Proof.
  intros Hrun. frame_enq. minv.
  all: do 3 eexists; do 3 (split; [first [eassumption|reflexivity]|]).
  1: left; repeat split; assumption.
  all: right; split; [assumption|]; do 3 eexists; split; [eassumption|].
  all: split;
    [|cbv zeta; unfold call2_events;
      match goal with H : call2_ok _ _ = _ |- _ => rewrite H end;
      split; reflexivity].
  all: clear Hm; cbn [fst snd].
  all: repeat match goal with
       | H : (_ =? _) = false |- _ => apply Z.eqb_neq in H
       | H : (_ =? _) = true |- _ => apply Z.eqb_eq in H
       end.
  all: unfold enqueued_payload; repeat split; try congruence; eauto.
Qed.

(** A message of the type of [ti_sample] that carries an object. *)
Definition m_sample : OCI_Msg :=
  mkMsg (Some ti_sample) 0 (Some o_pinned) NULL (Some 12%positive).

Lemma OCI_EnqueuePut_call_witness :
  exists b s' payload ind,
    OCI_EnqueuePut N_ok (Some 1%positive) (Some m_sample) s_enq = Some (b, s') /\
    enqueued_payload N_ok ti_sample m_sample payload ind.
Proof.
  destruct (OCI_EnqueuePut N_ok (Some 1%positive) (Some m_sample) s_enq)
    as [[b s']|] eqn:Hrun; [|discriminate Hrun].
  destruct (OCI_EnqueuePut_call N_ok 1%positive m_sample s_enq b s' Hrun)
    as (e & ti & mti & He & Hti & Hmti & Hcase).
  vm_compute in He. injection He as <-.
  cbn in Hti. injection Hti as <-.
  cbn in Hmti. injection Hmti as <-.
  destruct Hcase as [(Hne & _) | (_ & cn & payload & ind & _ & Hp & _)].
  - exfalso. apply Hne. reflexivity.
  - exists b, s', payload, ind. split; [reflexivity|exact Hp].
Defined.

(** X18: OCI_EnqueueSetRelativeMsgID on a live enqueue object converts the
    identifier first and sets the attribute only when the conversion
    succeeded.  A failed OCIRawAssignBytes gives FALSE and no OCIAttrSet call
    is made; after a successful one, the raw value it produced is handed to
    one OCIAttrSet call on the options descriptor, whose outcome is the
    result. *)
Theorem OCI_EnqueueSetRelativeMsgID_calls N p id len s b s' :
  OCI_EnqueueSetRelativeMsgID N (Some p) id len s = Some (b, s') ->
  exists e ti cn,
    enqs s !! p = Some e /\ enq_typinf e = Some ti /\ ti_con ti = Some cn /\
    let c1 := OCIRawAssignBytes id (to_ub4 len) in
    let st1 := nat_status N (trace s) c1 in
    let c2 := OCIAttrSetRaw (enq_opth e) OCI_ATTR_RELATIVE_MSGID
                (nat_handle N (trace s) c1) in
    let st2 := nat_status N (EvCall2 c1 st1 :: trace s) c2 in
    if call2_ok N st1 then
      b = call2_ok N st2 /\
      trace s' = EvResult b :: call2_events N cn c2 st2 ++ EvCall2 c1 st1 :: trace s
    else
      b = false /\
      trace s' = EvResult false :: EvException (ExcOCI cn) :: EvCall2 c1 st1 :: trace s.
Proof.
  intros Hrun. frame_enq. minv.
  all: do 3 eexists; do 3 (split; [eassumption|]).
  all: cbv zeta; unfold call2_events.
  all: repeat match goal with H : call2_ok _ _ = _ |- _ => rewrite H; clear H end.
  all: split; reflexivity.
Qed.

Lemma OCI_EnqueueSetRelativeMsgID_calls_witness :
  exists s',
    OCI_EnqueueSetRelativeMsgID N_ok (Some 1%positive) [1; 2] 2 s_enq = Some (true, s') /\
    trace s' =
      [EvResult true;
       EvCall2 (OCIAttrSetRaw (Some 7%positive) OCI_ATTR_RELATIVE_MSGID (Some 9%positive)) 0;
       EvCall2 (OCIRawAssignBytes [1; 2] 2) 0].
Proof.
  destruct (OCI_EnqueueSetRelativeMsgID N_ok (Some 1%positive) [1; 2] 2 s_enq)
    as [[b s']|] eqn:Hrun; [|discriminate Hrun].
  destruct (OCI_EnqueueSetRelativeMsgID_calls N_ok 1%positive [1; 2] 2 s_enq b s' Hrun)
    as (e & ti & cn & He & Hti & Hcn & Hcase).
  vm_compute in He. injection He as <-.
  cbn in Hti. injection Hti as <-.
  cbn in Hcn. injection Hcn as <-.
  cbn in Hcase. destruct Hcase as [-> Htr].
  exists s'. split; [reflexivity|exact Htr].
Defined.

